(** * Inline Translate: a shallow embedding of [src/main.ts]

    The plugin translates lines or selections of an editor document through
    a remote backend and writes the formatted result back into the document.
    This development embeds the settings object, the block formatter, the
    translation adapter and the line bookkeeping loop of the
    per-line command, and proves the properties the specification states
    about them. *)

From stdpp Require Import base numbers option list strings gmap fin_maps.

Open Scope nat_scope.

(** ** JavaScript strings

    A JavaScript string is a sequence of UTF-16 code units.  Property names
    and literals of the source are written as Rocq strings and converted
    with [js]. *)

Abbreviation jsstring := (list N).

Definition js (s : string) : jsstring :=
  Ascii.N_of_ascii <$> String.list_ascii_of_string s.

(** The line feed, written '\n' in the source. *)
Definition NL : N := 10%N.

(** The class [\s] of ECMAScript regular expressions: WhiteSpace and
    LineTerminator code units. *)
Definition isSpace (c : N) : bool :=
  ((9 <=? c) && (c <=? 13) || (c =? 32) || (c =? 160) || (c =? 5760)
   || (8192 <=? c) && (c <=? 8202) || (c =? 8232) || (c =? 8233)
   || (c =? 8239) || (c =? 8287) || (c =? 12288) || (c =? 65279))%N.

(** [/^\s*$/.test(line)]: without the [m] flag the anchors are the two ends
    of the string, so the test holds when every code unit is in [\s]. *)
Definition isBlank (line : jsstring) : bool := forallb isSpace line.

(** [text.split('\n')]: never empty, the empty string gives one empty
    piece. *)
Fixpoint split_nl (text : jsstring) : list jsstring :=
  match text with
  | [] => [[]]
  | c :: rest =>
      if (c =? NL)%N then [] :: split_nl rest
      else match split_nl rest with
           | piece :: pieces => (c :: piece) :: pieces
           | [] => [[c]]
           end
  end.

(** [pieces.join(sep)]. *)
Fixpoint join (sep : jsstring) (pieces : list jsstring) : jsstring :=
  match pieces with
  | [] => []
  | [piece] => piece
  | piece :: rest => piece ++ sep ++ join sep rest
  end.

(** Number of line feeds of a string. *)
Definition count_nl (text : jsstring) : nat :=
  length (filter (fun c => c = NL) text).

(** A text without line feed: one piece for [split('\n')]. *)
Definition single_line (text : jsstring) : Prop := NL ∉ text.

#[global] Instance single_line_dec text : Decision (single_line text).
Proof. unfold single_line. apply _. Defined.

(** The carriage return, written '\r'. *)
Definition CR : N := 13%N.

(** A text the editor keeps on one line: it holds no line feed and no
    carriage return. *)
Definition unbroken (text : jsstring) : Prop := (NL ∉ text) /\ (CR ∉ text).

#[global] Instance unbroken_dec text : Decision (unbroken text).
Proof. unfold unbroken. apply _. Defined.

(** The editor cuts the text it is given into lines at [\r\n], [\r] and
    [\n] (its line separator is [/\r\n?|\n/]).  [normalize_from] writes each
    of these breaks as one line feed; [afterCR] tells that the code unit
    before was a carriage return, so that a line feed that comes next is
    part of the same break. *)
Fixpoint normalize_from (afterCR : bool) (text : jsstring) : jsstring :=
  match text with
  | [] => []
  | c :: rest =>
      if (c =? CR)%N then NL :: normalize_from true rest
      else if (c =? NL)%N then
        if afterCR then normalize_from false rest
        else NL :: normalize_from false rest
      else c :: normalize_from false rest
  end.

Definition normalize (text : jsstring) : jsstring := normalize_from false text.

(** The lines the editor makes of a text. *)
Definition split_lines (text : jsstring) : list jsstring :=
  split_nl (normalize text).

Definition nonblank (text : jsstring) : Prop := isBlank text = false.

#[global] Instance nonblank_dec text : Decision (nonblank text).
Proof. unfold nonblank. apply _. Defined.

(** ** Settings

    [this.settings] is a plain object: [loadSettings] builds it with
    [Object.assign] from whatever the persistence layer returns, so a field
    can hold a value its TypeScript type excludes.  Values are strings and
    arrays of strings. *)

Inductive JsValue : Type :=
  | JStr (s : jsstring)
  | JArr (items : list jsstring).

#[global] Instance JsValue_eq_dec : EqDecision JsValue.
Proof. solve_decision. Defined.

Abbreviation JsObject := (gmap string JsValue).

Definition DEFAULT_SETTINGS : JsObject :=
  <["blockType" := JStr (js "codeblock")]>
    (<["preferredLanguages" := JArr []]>
       (<["targetLanguage" := JStr (js "en")]> ∅)).

(** [Object.assign({}, defaults, data)]: later sources win, and a [null]
    source (nothing persisted yet) is skipped. *)
Definition Object_assign (target : JsObject) (sources : list (option JsObject))
  : JsObject :=
  foldl (fun acc src => match src with
                        | Some o => o ∪ acc
                        | None => acc
                        end) target sources.

(** The plugin instance: its settings and the persisted data ([data.json],
    absent before the first save). *)
Record Plugin : Type := mkPlugin {
  settings : JsObject;
  data : option JsObject
}.

Definition loadData (p : Plugin) : option JsObject := data p.

Definition saveData (o : JsObject) (p : Plugin) : Plugin :=
  {| settings := settings p; data := Some o |}.

Definition loadSettings (p : Plugin) : Plugin :=
  {| settings := Object_assign ∅ [Some DEFAULT_SETTINGS; loadData p];
     data := data p |}.

Definition saveSettings (p : Plugin) : Plugin := saveData (settings p) p.

(** ** Block formatter *)

(** The arm the [switch (this.settings.blockType)] selects; the comparison
    is strict equality with the three literals. *)
Inductive BlockCase : Type := Codeblock | Quotation | Callout | OtherBlock.

Definition blockCase (settings : JsObject) : BlockCase :=
  match settings !! "blockType" with
  | Some (JStr b) =>
      if decide (b = js "codeblock") then Codeblock
      else if decide (b = js "quotation") then Quotation
      else if decide (b = js "callout") then Callout
      else OtherBlock
  | _ => OtherBlock
  end.

Definition quote (line : jsstring) : jsstring := js "> " ++ line.

Definition formatTranslation (settings : JsObject) (text : jsstring) : jsstring :=
  match blockCase settings with
  | Codeblock => js "```" ++ [NL] ++ text ++ [NL] ++ js "```"
  | Quotation => join [NL] (quote <$> split_nl text)
  | Callout =>
      js "> [!translation]- ..." ++ [NL] ++ join [NL] (quote <$> split_nl text)
  | OtherBlock => text
  end.

Definition getLinesAdded (settings : JsObject) : nat :=
  match blockCase settings with
  | Codeblock => 3
  | Quotation => 1
  | Callout => 2
  | OtherBlock => 1
  end.

(** Line feeds that formatting adds to a text. *)
Definition newlines_introduced (s : JsObject) (x : jsstring) : nat :=
  count_nl (formatTranslation s x) - count_nl x.

(** The text that replaces a line, and the lines it makes. *)
Definition replacement (s : JsObject) (text translated : jsstring) : jsstring :=
  text ++ [NL] ++ formatTranslation s translated ++ [NL].

(** The settings tab: [this.plugin.settings.blockType = value]. *)
Definition setBlockType (value : jsstring) (settings : JsObject) : JsObject :=
  <["blockType" := JStr value]> settings.

(** ** Settings tab *)

(** [value.split(',')], as [split_nl] with the comma for the line feed. *)
Definition COMMA : N := 44%N.

Fixpoint split_on (sep : N) (text : jsstring) : list jsstring :=
  match text with
  | [] => [[]]
  | c :: rest =>
      if (c =? sep)%N then [] :: split_on sep rest
      else match split_on sep rest with
           | piece :: pieces => (c :: piece) :: pieces
           | [] => [[c]]
           end
  end.

(** [lang.trim()]: the white space and line terminators at both ends go,
    the same code units as [\s]. *)
Fixpoint trimStart (text : jsstring) : jsstring :=
  match text with
  | c :: rest => if isSpace c then trimStart rest else text
  | [] => []
  end.

Definition trimEnd (text : jsstring) : jsstring :=
  reverse (trimStart (reverse text)).

Definition trim (text : jsstring) : jsstring := trimEnd (trimStart text).

(** A text with no white space at its start, and none at either end. *)
Definition starts_clean (text : jsstring) : Prop :=
  match text with
  | c :: _ => isSpace c = false
  | [] => True
  end.

Definition trimmed (text : jsstring) : Prop :=
  starts_clean text /\ starts_clean (reverse text).

(** The settings have every field of the defaults. *)
Definition complete (s : JsObject) : Prop := dom DEFAULT_SETTINGS ⊆ dom s.

#[global] Instance complete_dec s : Decision (complete s).
Proof. unfold complete. apply _. Defined.

(** [value.split(',').map(lang => lang.trim()).filter(lang => lang)]: the
    empty string is the only string that is not truthy. *)
Definition parsePreferredLanguages (value : jsstring) : list jsstring :=
  filter (fun lang => lang <> []) (trim <$> split_on COMMA value).

(** [this.plugin.settings.preferredLanguages.join(',')], the text the tab
    shows. *)
Definition showPreferredLanguages (languages : list jsstring) : jsstring :=
  join [COMMA] languages.

(** [value.trim() || 'en']. *)
Definition parseTargetLanguage (value : jsstring) : jsstring :=
  match trim value with
  | [] => js "en"
  | (_ :: _) as trimmed => trimmed
  end.

(** [this.plugin.settings.<field> = v; await this.plugin.saveSettings()]. *)
Definition assignSetting (field : string) (v : JsValue) (p : Plugin) : Plugin :=
  saveSettings {| settings := <[field := v]> (settings p); data := data p |}.

(** The three [onChange] handlers of the tab. *)
Definition onBlockTypeChange (value : jsstring) (p : Plugin) : Plugin :=
  saveSettings {| settings := setBlockType value (settings p); data := data p |}.

Definition onPreferredLanguagesChange (value : jsstring) (p : Plugin) : Plugin :=
  assignSetting "preferredLanguages" (JArr (parsePreferredLanguages value)) p.

Definition onTargetLanguageChange (value : jsstring) (p : Plugin) : Plugin :=
  assignSetting "targetLanguage" (JStr (parseTargetLanguage value)) p.

(** ** The editor, the log of effects and the command monad *)

(** [EditorPosition]. *)
Record Pos : Type := mkPos { line : nat; ch : nat }.

Definition pos_le (p q : Pos) : bool :=
  (line p <? line q) || ((line p =? line q) && (ch p <=? ch q)).

(** The document as its lines, and the two ends of the selection.  No
    command reads the cursor after it has changed the document, so the
    mapping of the cursor through a change is left out. *)
Record Editor : Type := mkEditor {
  doc : list jsstring;
  anchor : Pos;
  head : Pos
}.

Inductive CursorSide : Type := CFrom | CTo | CHead.

Definition getCursor (side : CursorSide) (e : Editor) : Pos :=
  match side with
  | CFrom => if pos_le (anchor e) (head e) then anchor e else head e
  | CTo => if pos_le (anchor e) (head e) then head e else anchor e
  | CHead => head e
  end.

(** Offset of a position in the text of the document. *)
Definition posToOffset (d : list jsstring) (p : Pos) : nat :=
  sum_list ((fun l => S (length l)) <$> take (line p) d) + ch p.

Definition getSelection (e : Editor) : jsstring :=
  let text := join [NL] (doc e) in
  let a := posToOffset (doc e) (getCursor CFrom e) in
  let b := posToOffset (doc e) (getCursor CTo e) in
  take (b - a) (drop a text).

(** A position that lies in the document. *)
Definition valid (d : list jsstring) (p : Pos) : Prop :=
  exists text, d !! line p = Some text /\ ch p <= length text.

(** The lines of a document, each after a line feed: the text of the
    document behind one leading line feed. *)
Definition feed (d : list jsstring) : jsstring := d ≫= (fun text => NL :: text).

Inductive Error : Type :=
  | TypeError
  | RangeError
  | BackendError
  | NotAllowedError.

Inductive Result (A : Type) : Type :=
  | Ok (a : A)
  | Throw (e : Error).
Arguments Ok {A} a.
Arguments Throw {A} e.

(** What a command does to the outside, in order. *)
Inductive Event : Type :=
  | EGetLine (i : nat) (text : jsstring)
  | ETranslate (text : jsstring) (to : option JsValue) (from : JsValue)
  | EConsoleError (e : Error)
  | ENotice (message : jsstring)
  | EClipboard (text : jsstring)
  | EReplaceRange (text : jsstring) (from to : Pos)
  | EReplaceSelection (text : jsstring).

(** The world a command runs in.  [clipboardError] is the error the
    promise of [navigator.clipboard.writeText] is rejected with when the
    browser does not let the page write to the clipboard, and [None] when
    it does. *)
Record World : Type := mkWorld {
  editor : Editor;
  clipboard : jsstring;
  clipboardError : option Error;
  log : list Event
}.

Definition emit (ev : Event) (w : World) : World :=
  {| editor := editor w; clipboard := clipboard w;
     clipboardError := clipboardError w; log := log w ++ [ev] |}.

(** A world with further events at the end of its log. *)
Definition extend (evs : list Event) (w : World) : World :=
  {| editor := editor w; clipboard := clipboard w;
     clipboardError := clipboardError w; log := log w ++ evs |}.

Definition setDoc (d : list jsstring) (w : World) : World :=
  {| editor := {| doc := d; anchor := anchor (editor w); head := head (editor w) |};
     clipboard := clipboard w; clipboardError := clipboardError w;
     log := log w |}.

(** The texts sent to the backend, and the lines read, in order. *)
Definition translations (evs : list Event) : list jsstring :=
  omap (fun ev => match ev with ETranslate t _ _ => Some t | _ => None end) evs.

Definition inspections (evs : list Event) : list (nat * jsstring) :=
  omap (fun ev => match ev with EGetLine i t => Some (i, t) | _ => None end) evs.

Definition notices (evs : list Event) : list jsstring :=
  omap (fun ev => match ev with ENotice m => Some m | _ => None end) evs.

(** A computation runs in a world and returns or throws. *)
Definition M (A : Type) : Type := World -> Result A * World.

Definition ret {A} (a : A) : M A := fun w => (Ok a, w).

Definition throw {A} (e : Error) : M A := fun w => (Throw e, w).

Definition bind {A B} (m : M A) (k : A -> M B) : M B :=
  fun w => match m w with
           | (Ok a, w') => k a w'
           | (Throw e, w') => (Throw e, w')
           end.

(** [try { m } catch (error) { handler }]. *)
Definition try_catch {A} (m : M A) (handler : Error -> M A) : M A :=
  fun w => match m w with
           | (Ok a, w') => (Ok a, w')
           | (Throw e, w') => handler e w'
           end.

Notation "'let!' x ':=' m 'in' k" := (bind m (fun x => k))
  (at level 10, x pattern, m at level 100, k at level 200).

Definition effect (ev : Event) : M unit := fun w => (Ok tt, emit ev w).

(** [editor.getLine(i)]; a line number outside the document is a
    [RangeError]. *)
Definition getLine (i : nat) : M jsstring :=
  fun w => match doc (editor w) !! i with
           | Some text => (Ok text, emit (EGetLine i text) w)
           | None => (Throw RangeError, w)
           end.

(** [editor.replaceRange(text, from, to)]: what stands before [from] on its
    line, [text], and what stands after [to] on its line, cut into lines
    the way the editor cuts them.  The lines of a document hold no line
    break, so the cuts fall in [text]. *)
Definition replaced (text : jsstring) (from to : Pos) (d : list jsstring)
  : option (list jsstring) :=
  match d !! line from, d !! line to with
  | Some first, Some last =>
      Some (take (line from) d
            ++ split_lines (take (ch from) first ++ text ++ drop (ch to) last)
            ++ drop (S (line to)) d)
  | _, _ => None
  end.

Definition replaceRange (text : jsstring) (from to : Pos) : M unit :=
  fun w => match replaced text from to (doc (editor w)) with
           | Some d => (Ok tt, emit (EReplaceRange text from to) (setDoc d w))
           | None => (Throw RangeError, w)
           end.

(** [editor.replaceSelection(text)]. *)
Definition replaceSelection (text : jsstring) : M unit :=
  fun w => let e := editor w in
           match replaced text (getCursor CFrom e) (getCursor CTo e) (doc e) with
           | Some d => (Ok tt, emit (EReplaceSelection text) (setDoc d w))
           | None => (Throw RangeError, w)
           end.

(** [navigator.clipboard.writeText(text)]: the text is written, or the
    promise is rejected and the clipboard keeps what it held. *)
Definition writeText (text : jsstring) : M unit :=
  fun w => match clipboardError w with
           | None => (Ok tt, emit (EClipboard text)
                               {| editor := editor w; clipboard := text;
                                  clipboardError := clipboardError w;
                                  log := log w |})
           | Some e => (Throw e, w)
           end.

(** ** Translation adapter *)

(** The notice of [translateText] when the call fails. *)
Definition failureNotice : Event :=
  ENotice (js "Error translating text. Please try again later.").

Section Backend.

(** The remote service: what the call number [n] answers for a text and a
    language pair, [None] when the call fails. *)
Variable backend : nat -> jsstring -> option JsValue -> JsValue -> option jsstring.

Definition translate (text : jsstring) (to : option JsValue) (from : JsValue)
  : M jsstring :=
  fun w => let n := length (translations (log w)) in
           (match backend n text to from with
            | Some answer => Ok answer
            | None => Throw BackendError
            end, emit (ETranslate text to from) w).

(** [preferredLanguages.length > 0 ? preferredLanguages[0] : 'auto'];
    reading [length] of a missing field is a [TypeError]. *)
Definition sourceHint (preferredLanguages : JsValue) : JsValue :=
  match preferredLanguages with
  | JArr (first :: _) => JStr first
  | JStr (c :: _) => JStr [c]
  | _ => JStr (js "auto")
  end.

Definition sourceLanguage (settings : JsObject) : M JsValue :=
  match settings !! "preferredLanguages" with
  | Some preferredLanguages => ret (sourceHint preferredLanguages)
  | None => throw TypeError
  end.

Definition translateText (settings : JsObject) (text : jsstring) : M jsstring :=
  try_catch
    (let! from := sourceLanguage settings in
     let! translatedText := translate text (settings !! "targetLanguage") from in
     ret translatedText)
    (fun error =>
       let! _ := effect (EConsoleError error) in
       let! _ := effect failureNotice in
       ret text).

(** ** Batch engine *)

(** The lines the per-line command covers. *)
Definition lineRange (e : Editor) : nat * nat :=
  match getSelection e with
  | _ :: _ => (line (getCursor CFrom e), line (getCursor CTo e))
  | [] => (line (getCursor CHead e), line (getCursor CHead e))
  end.

(** The body of the [for] loop at index [i]: it returns the values of [i]
    and [endLine] it leaves. *)
Definition body (settings : JsObject) (i endLine : nat) : M (nat * nat) :=
  let! text := getLine i in
  if negb (isBlank text) then
    let! translatedText := translateText settings text in
    let formattedTranslation := formatTranslation settings translatedText in
    let! _ := replaceRange (text ++ [NL] ++ formattedTranslation ++ [NL])
                (mkPos i 0) (mkPos i (length text)) in
    ret (i + (getLinesAdded settings + 1), endLine + (getLinesAdded settings + 1))
  else ret (i, endLine).

(** [for (let i = startLine; i <= endLine; i++) body]; [None] when the fuel
    runs out before the loop ends. *)
Fixpoint forLoop (fuel : nat) (settings : JsObject) (i endLine : nat) (w : World)
  : option (Result unit * World) :=
  if i <=? endLine then
    match fuel with
    | O => None
    | S fuel' =>
        match body settings i endLine w with
        | (Ok (i', endLine'), w') => forLoop fuel' settings (i' + 1) endLine' w'
        | (Throw e, w') => Some (Throw e, w')
        end
    end
  else Some (Ok tt, w).

(** Command [inline-translate-line]. *)
Definition inlineTranslateLine (fuel : nat) (settings : JsObject) (w : World)
  : option (Result unit * World) :=
  let '(startLine, endLine) := lineRange (editor w) in
  forLoop fuel settings startLine endLine w.

(** Command [translate-to-notice]. *)
Definition translateToNotice (settings : JsObject) : M unit :=
  fun w => match getSelection (editor w) with
           | (_ :: _) as selection =>
               (let! translatedText := translateText settings selection in
                let! _ := effect (ENotice translatedText) in
                writeText translatedText) w
           | [] => effect (ENotice (js "No text selected for translation.")) w
           end.

(** Command [translate-to-block]. *)
Definition translateToBlock (settings : JsObject) : M unit :=
  fun w => match getSelection (editor w) with
           | (_ :: _) as selection =>
               (let! translatedText := translateText settings selection in
                let formattedTranslation :=
                  formatTranslation settings translatedText in
                replaceSelection (selection ++ [NL] ++ formattedTranslation)) w
           | [] => effect (ENotice (js "No text selected for translation.")) w
           end.

(** ** Reference descriptions

    What the adapter and the loop are expected to leave, written over the
    original lines; the theorems relate the code to them. *)

(** What [translateText] returns at call number [n], and the events it
    leaves. *)
Definition answer (s : JsObject) (n : nat) (text : jsstring) : jsstring :=
  match s !! "preferredLanguages" with
  | Some pl =>
      default text (backend n text (s !! "targetLanguage") (sourceHint pl))
  | None => text
  end.

Definition translateEvents (s : JsObject) (n : nat) (text : jsstring) : list Event :=
  match s !! "preferredLanguages" with
  | Some pl =>
      let call := ETranslate text (s !! "targetLanguage") (sourceHint pl) in
      match backend n text (s !! "targetLanguage") (sourceHint pl) with
      | Some _ => [call]
      | None => [call; EConsoleError BackendError; failureNotice]
      end
  | None => [EConsoleError TypeError; failureNotice]
  end.

(** The lines that stand where an original line stood once the loop has
    passed it: the line alone when it is blank, else the line, the
    formatted answer of call [n] and the empty line the replacement ends
    with. *)
Definition block (s : JsObject) (n : nat) (text : jsstring) : list jsstring :=
  if isBlank text then [text]
  else text :: split_nl (formatTranslation s (answer s n text)) ++ [[]].

Fixpoint blocks (s : JsObject) (n : nat) (sel : list jsstring)
  : list (list jsstring) :=
  match sel with
  | [] => []
  | text :: rest =>
      block s n text :: blocks s (if isBlank text then n else S n) rest
  end.

(** The index at which each block starts when the first starts at [i]. *)
Fixpoint starts (i : nat) (bs : list (list jsstring)) : list nat :=
  match bs with
  | [] => []
  | b :: rest => i :: starts (i + length b) rest
  end.

(** The lines that stand for an original line when no translation could be
    had: the line, and after a non-blank one its own text formatted and an
    empty line. *)
Definition echoed (s : JsObject) (text : jsstring) : list jsstring :=
  if isBlank text then [text]
  else text :: split_nl (formatTranslation s text) ++ [[]].

End Backend.

(** Two backends for concrete runs: one that always answers the same text
    and one whose every call fails. *)
Definition answering (translated : jsstring)
  : nat -> jsstring -> option JsValue -> JsValue -> option jsstring :=
  fun _ _ _ _ => Some translated.

Definition failing
  : nat -> jsstring -> option JsValue -> JsValue -> option jsstring :=
  fun _ _ _ _ => None.

(** The settings of the scenarios: block type [codeblock], target [fr]. *)
Definition scenarioSettings : JsObject :=
  <["targetLanguage" := JStr (js "fr")]> DEFAULT_SETTINGS.

(** A document of three lines, the second blank, selected from its start
    to its end, and the same document with the cursor inside the last
    line. *)
Definition selectedDocument : World :=
  {| editor := {| doc := [js "Hello"; js "  "; js "World"];
                  anchor := mkPos 0 0; head := mkPos 2 5 |};
     clipboard := []; clipboardError := None; log := [] |}.

Definition cursorOnly : World :=
  {| editor := {| doc := [js "Hello"; js "  "; js "World"];
                  anchor := mkPos 2 3; head := mkPos 2 3 |};
     clipboard := []; clipboardError := None; log := [] |}.

(** * Properties *)

(** ** Lines of a string *)

Lemma split_nl_cons_nl rest : split_nl (NL :: rest) = [] :: split_nl rest.
Proof. reflexivity. Qed.

Lemma split_nl_cons c rest :
  c ≠ NL ->
  split_nl (c :: rest) =
    match split_nl rest with
    | piece :: pieces => (c :: piece) :: pieces
    | [] => [[c]]
    end.
Proof.
  intros Hc. simpl. destruct (N.eqb_spec c NL); [contradiction | reflexivity].
Qed.

Lemma split_nl_not_nil text : split_nl text ≠ [].
Proof.
  destruct text as [|c rest]; simpl; [discriminate|].
  destruct (c =? NL)%N; [discriminate|].
  destruct (split_nl rest); discriminate.
Qed.

Lemma split_nl_single text : single_line text -> split_nl text = [text].
Proof.
  unfold single_line. induction text as [|c rest IH]; intros Hnl; [reflexivity|].
  apply not_elem_of_cons in Hnl as [Hc Hrest].
  rewrite split_nl_cons by congruence. by rewrite IH.
Qed.

Lemma split_nl_app a b : split_nl (a ++ NL :: b) = split_nl a ++ split_nl b.
Proof.
  induction a as [|c a IH]; [reflexivity|].
  destruct (decide (c = NL)) as [->|Hc].
  - rewrite <- app_comm_cons, !split_nl_cons_nl, IH. reflexivity.
  - rewrite <- app_comm_cons, !split_nl_cons, IH by done.
    pose proof (split_nl_not_nil a) as Ha.
    destruct (split_nl a); [contradiction | reflexivity].
Qed.

Lemma split_nl_pieces text : Forall single_line (split_nl text).
Proof.
  induction text as [|c rest IH].
  - repeat constructor. unfold single_line. apply not_elem_of_nil.
  - destruct (decide (c = NL)) as [->|Hc].
    + rewrite split_nl_cons_nl. constructor; [|done].
      unfold single_line. apply not_elem_of_nil.
    + rewrite split_nl_cons by done.
      pose proof (split_nl_not_nil rest) as Hne.
      destruct (split_nl rest) as [|piece pieces]; [contradiction|].
      apply Forall_cons in IH as [Hp Hps]. constructor; [|done].
      unfold single_line in *. apply not_elem_of_cons. split; [congruence | done].
Qed.

Lemma split_nl_join pieces :
  pieces ≠ [] -> Forall single_line pieces ->
  split_nl (join [NL] pieces) = pieces.
Proof.
  induction pieces as [|p rest IH]; [done|]. intros _ Hall.
  apply Forall_cons in Hall as [Hp Hrest].
  destruct rest as [|q rest].
  - simpl. by apply split_nl_single.
  - change (join [NL] (p :: q :: rest)) with (p ++ NL :: join [NL] (q :: rest)).
    rewrite split_nl_app, IH by done. by rewrite split_nl_single.
Qed.

Lemma count_nl_split text : length (split_nl text) = count_nl text + 1.
Proof.
  unfold count_nl. induction text as [|c rest IH]; [reflexivity|].
  destruct (decide (c = NL)) as [->|Hc].
  - rewrite split_nl_cons_nl, filter_cons_True by done. simpl. by rewrite IH.
  - rewrite split_nl_cons, filter_cons_False by done.
    pose proof (split_nl_not_nil rest) as Hne.
    destruct (split_nl rest); [contradiction | exact IH].
Qed.

Lemma single_line_app a b : single_line a -> single_line b -> single_line (a ++ b).
Proof. unfold single_line. intros Ha Hb. by apply not_elem_of_app. Qed.

Lemma quote_single_line text : single_line text -> single_line (quote text).
Proof.
  intros H. apply single_line_app; [|done].
  apply (bool_decide_unpack _). by vm_compute.
Qed.

Lemma feed_cons text d : feed (text :: d) = NL :: text ++ feed d.
Proof. reflexivity. Qed.

Lemma feed_app d1 d2 : feed (d1 ++ d2) = feed d1 ++ feed d2.
Proof. unfold feed. apply bind_app. Qed.

Lemma join_cons_feed text d : join [NL] (text :: d) = text ++ feed d.
Proof.
  revert text. induction d as [|next d IH]; intros text.
  - simpl. by rewrite app_nil_r.
  - change (join [NL] (text :: next :: d))
      with (text ++ NL :: join [NL] (next :: d)).
    by rewrite IH, feed_cons.
Qed.

Lemma join_feed d : join [NL] d = tail (feed d).
Proof. destruct d as [|text d]; [done|]. by rewrite join_cons_feed, feed_cons. Qed.

Lemma feed_split_nl text : feed (split_nl text) = NL :: text.
Proof.
  induction text as [|c rest IH]; [reflexivity|].
  destruct (decide (c = NL)) as [->|Hc].
  - rewrite split_nl_cons_nl, feed_cons, IH. reflexivity.
  - rewrite split_nl_cons by done.
    pose proof (split_nl_not_nil rest) as Hne.
    destruct (split_nl rest) as [|piece pieces]; [contradiction|].
    rewrite feed_cons in *. injection IH as <-. reflexivity.
Qed.

Lemma feed_length d : length (feed d) = sum_list ((fun l => S (length l)) <$> d).
Proof.
  induction d as [|text d IH]; [reflexivity|].
  rewrite feed_cons. simpl. rewrite length_app, IH. reflexivity.
Qed.

(** ** Line breaks of the editor *)

Lemma elem_of_feed (x : N) (d : list jsstring) :
  x ∈ feed d <-> exists piece, piece ∈ d /\ x ∈ NL :: piece.
Proof.
  unfold feed. rewrite list_elem_of_bind. split; intros (p & H1 & H2); eauto.
Qed.

(** A code unit other than the line feed is in a text when it is in one of
    its lines. *)
Lemma elem_of_lines (x : N) text :
  x ≠ NL -> x ∈ text <-> exists piece, piece ∈ split_nl text /\ x ∈ piece.
Proof.
  intros Hx. split.
  - intros Hin. assert (x ∈ feed (split_nl text)) as Hfeed.
    { rewrite feed_split_nl. by right. }
    apply elem_of_feed in Hfeed as (piece & Hpiece & Hin').
    exists piece. split; [done|].
    apply elem_of_cons in Hin' as [->|]; [done | done].
  - intros (piece & Hpiece & Hin).
    assert (x ∈ feed (split_nl text)) as Hfeed.
    { apply elem_of_feed. exists piece. split; [done | by right]. }
    rewrite feed_split_nl in Hfeed.
    apply elem_of_cons in Hfeed as [->|]; [done | done].
Qed.

Lemma normalize_from_unbroken b text :
  unbroken text -> normalize_from b text = text.
Proof.
  intros [Hnl Hcr]. revert b. induction text as [|c rest IH]; intros b; [done|].
  apply not_elem_of_cons in Hnl as [Hc1 Hnl].
  apply not_elem_of_cons in Hcr as [Hc2 Hcr]. simpl.
  destruct (N.eqb_spec c CR); [congruence|].
  destruct (N.eqb_spec c NL); [congruence|]. by rewrite IH.
Qed.

Lemma normalize_cr_free text : CR ∉ text -> normalize text = text.
Proof.
  unfold normalize. induction text as [|c rest IH]; intros Hcr; [done|].
  apply not_elem_of_cons in Hcr as [Hc Hcr]. simpl.
  destruct (N.eqb_spec c CR); [congruence|].
  destruct (N.eqb_spec c NL) as [->|]; by rewrite IH.
Qed.

Lemma normalize_app_cr_free a text :
  CR ∉ a -> normalize (a ++ text) = a ++ normalize text.
Proof.
  unfold normalize. induction a as [|c a IH]; intros Hcr; [done|].
  apply not_elem_of_cons in Hcr as [Hc Hcr]. simpl.
  destruct (N.eqb_spec c CR); [congruence|].
  destruct (N.eqb_spec c NL) as [->|]; by rewrite IH.
Qed.

Lemma normalize_from_app_unbroken b text tail :
  unbroken tail -> normalize_from b (text ++ tail) = normalize_from b text ++ tail.
Proof.
  intros Htail. revert b. induction text as [|c rest IH]; intros b.
  - by apply normalize_from_unbroken.
  - simpl. destruct (c =? CR)%N; [by rewrite IH|].
    destruct (c =? NL)%N; [destruct b; by rewrite IH | by rewrite IH].
Qed.

Lemma normalize_from_no_cr b text : CR ∉ normalize_from b text.
Proof.
  revert b. induction text as [|c rest IH]; intros b; [apply not_elem_of_nil|].
  simpl. destruct (N.eqb_spec c CR) as [->|Hc].
  - apply not_elem_of_cons. split; [done | apply IH].
  - destruct (c =? NL)%N.
    + destruct b; [apply IH|]. apply not_elem_of_cons. split; [done | apply IH].
    + apply not_elem_of_cons. split; [done | apply IH].
Qed.

Lemma count_nl_normalize_from b text :
  count_nl text <= count_nl (normalize_from b text) + (if b then 1 else 0).
Proof.
  unfold count_nl. revert b. induction text as [|c rest IH]; intros b.
  - simpl. lia.
  - simpl normalize_from. destruct (N.eqb_spec c CR) as [->|Hc].
    + rewrite filter_cons_False by done. rewrite filter_cons_True by done.
      specialize (IH true). simpl in *. lia.
    + destruct (N.eqb_spec c NL) as [->|Hc'].
      * rewrite filter_cons_True by done. destruct b.
        -- specialize (IH false). simpl in *. lia.
        -- rewrite filter_cons_True by done. specialize (IH false). simpl in *. lia.
      * rewrite !filter_cons_False by done. specialize (IH false).
        cbv iota in IH. destruct b; lia.
Qed.

(** The editor makes at least the lines that the line feeds make. *)
Lemma split_lines_length text : length (split_nl text) <= length (split_lines text).
Proof.
  unfold split_lines, normalize. rewrite !count_nl_split.
  pose proof (count_nl_normalize_from false text) as H. cbv iota in H. lia.
Qed.

Lemma split_lines_not_nil text : split_lines text ≠ [].
Proof. apply split_nl_not_nil. Qed.

Lemma split_lines_pieces text : Forall unbroken (split_lines text).
Proof.
  unfold split_lines. apply Forall_forall. intros piece Hpiece. split.
  - pose proof (split_nl_pieces (normalize text)) as Hall.
    rewrite Forall_forall in Hall. by apply Hall.
  - intros Hcr. apply (normalize_from_no_cr false text).
    apply elem_of_lines; [done|]. eauto.
Qed.

Lemma split_lines_cr_free text : CR ∉ text -> split_lines text = split_nl text.
Proof. intros H. unfold split_lines. by rewrite normalize_cr_free. Qed.

(** A line followed by a line feed is a line of its own. *)
Lemma split_lines_after_line text rest :
  unbroken text -> split_lines (text ++ NL :: rest) = text :: split_lines rest.
Proof.
  intros [Hnl Hcr]. unfold split_lines.
  rewrite normalize_app_cr_free by done.
  change (normalize (NL :: rest)) with (NL :: normalize rest).
  by rewrite split_nl_app, split_nl_single.
Qed.

(** ** Block formatter *)

Lemma blockCase_codeblock (s : JsObject) :
  s !! "blockType" = Some (JStr (js "codeblock")) -> blockCase s = Codeblock.
Proof. intros H. unfold blockCase. rewrite H. reflexivity. Qed.

Lemma blockCase_quotation (s : JsObject) :
  s !! "blockType" = Some (JStr (js "quotation")) -> blockCase s = Quotation.
Proof. intros H. unfold blockCase. rewrite H. reflexivity. Qed.

Lemma blockCase_callout (s : JsObject) :
  s !! "blockType" = Some (JStr (js "callout")) -> blockCase s = Callout.
Proof. intros H. unfold blockCase. rewrite H. reflexivity. Qed.

Lemma blockCase_other (s : JsObject) :
  s !! "blockType" ≠ Some (JStr (js "codeblock")) ->
  s !! "blockType" ≠ Some (JStr (js "quotation")) ->
  s !! "blockType" ≠ Some (JStr (js "callout")) ->
  blockCase s = OtherBlock.
Proof.
  intros H1 H2 H3. unfold blockCase.
  destruct (s !! "blockType") as [[b|items]|]; try reflexivity.
  repeat case_decide; subst; done.
Qed.

(** The lines of a formatted block, for each arm of the switch. *)
Lemma formatTranslation_lines (s : JsObject) text :
  split_nl (formatTranslation s text) =
    match blockCase s with
    | Codeblock => [js "```"] ++ split_nl text ++ [js "```"]
    | Quotation => quote <$> split_nl text
    | Callout => js "> [!translation]- ..." :: (quote <$> split_nl text)
    | OtherBlock => split_nl text
    end.
Proof.
  assert (Hq : split_nl (join [NL] (quote <$> split_nl text))
               = quote <$> split_nl text).
  { apply split_nl_join.
    - pose proof (split_nl_not_nil text). by destruct (split_nl text).
    - apply Forall_fmap. eapply Forall_impl; [apply split_nl_pieces|].
      intros l Hl. by apply quote_single_line. }
  unfold formatTranslation. destruct (blockCase s).
  - change (js "```" ++ [NL] ++ text ++ [NL] ++ js "```")
      with (js "```" ++ NL :: (text ++ NL :: js "```")).
    rewrite !split_nl_app. reflexivity.
  - exact Hq.
  - change (js "> [!translation]- ..." ++ [NL] ++ join [NL] (quote <$> split_nl text))
      with (js "> [!translation]- ..." ++ NL :: join [NL] (quote <$> split_nl text)).
    rewrite split_nl_app, Hq. reflexivity.
  - reflexivity.
Qed.

(** The block has [getLinesAdded] lines when the text has one, and one more
    for every further line of the text. *)
Lemma formatTranslation_length (s : JsObject) text :
  length (split_nl (formatTranslation s text)) + 1
  = getLinesAdded s + length (split_nl text).
Proof.
  rewrite formatTranslation_lines. unfold getLinesAdded.
  destruct (blockCase s); simpl; rewrite ?length_app, ?length_fmap; simpl; lia.
Qed.

Lemma formatTranslation_length_single (s : JsObject) text :
  single_line text ->
  length (split_nl (formatTranslation s text)) = getLinesAdded s.
Proof.
  intros H. pose proof (formatTranslation_length s text) as Hlen.
  rewrite (split_nl_single text H) in Hlen. simpl in Hlen. lia.
Qed.

(** Formatting brings no carriage return into a text. *)
Lemma formatTranslation_cr_free (s : JsObject) text :
  CR ∉ text -> CR ∉ formatTranslation s text.
Proof.
  intros Hcr Hin. apply (elem_of_lines CR) in Hin as (piece & Hpiece & Hin); [|done].
  assert (forall p, p ∈ split_nl text -> CR ∉ p) as Hlines.
  { intros p Hp Hc. apply Hcr. apply elem_of_lines; [done | eauto]. }
  assert (forall p, p ∈ quote <$> split_nl text -> CR ∉ p) as Hquoted.
  { intros p (q & -> & Hq)%list_elem_of_fmap Hc. unfold quote in Hc.
    apply elem_of_app in Hc as [Hc|Hc]; [|by apply (Hlines q)].
    revert Hc. apply (bool_decide_unpack _). by vm_compute. }
  assert (CR ∉ js "```") as Hfence by (apply (bool_decide_unpack _); by vm_compute).
  assert (CR ∉ js "> [!translation]- ...") as Hhead
    by (apply (bool_decide_unpack _); by vm_compute).
  rewrite formatTranslation_lines in Hpiece. destruct (blockCase s).
  - apply elem_of_app in Hpiece as [Hp|Hp].
    { apply list_elem_of_singleton in Hp as ->. done. }
    apply elem_of_app in Hp as [Hp|Hp]; [by apply (Hlines piece)|].
    apply list_elem_of_singleton in Hp as ->. done.
  - by apply (Hquoted piece).
  - apply elem_of_cons in Hpiece as [->|Hp]; [done | by apply (Hquoted piece)].
  - by apply (Hlines piece).
Qed.

Lemma newlines_introduced_plus_one (s : JsObject) x :
  single_line x -> getLinesAdded s = newlines_introduced s x + 1.
Proof.
  intros Hx. unfold newlines_introduced.
  pose proof (count_nl_split (formatTranslation s x)) as Hf.
  pose proof (count_nl_split x) as Hc.
  rewrite formatTranslation_length_single in Hf by done.
  rewrite split_nl_single in Hc by done. simpl in Hc. lia.
Qed.

(** C2 (as stated, refuted): with the default settings the fenced block of
    the one-line text [Hello] holds two line feeds while [getLinesAdded] is
    three. *)
Lemma getLinesAdded_not_newline_count :
  DEFAULT_SETTINGS !! "blockType" = Some (JStr (js "codeblock"))
  /\ single_line (js "Hello")
  /\ newlines_introduced DEFAULT_SETTINGS (js "Hello") = 2
  /\ getLinesAdded DEFAULT_SETTINGS = 3
  /\ getLinesAdded DEFAULT_SETTINGS
     <> newlines_introduced DEFAULT_SETTINGS (js "Hello").
Proof.
  split; [reflexivity|]. split; [apply (bool_decide_unpack _); by vm_compute|].
  split; [by vm_compute|]. split; [by vm_compute|]. by vm_compute.
Qed.

(** C2 (amended): for each of the three block types and every one-line
    text [x], [getLinesAdded] is one more than the number of line feeds that
    [formatTranslation] introduces, that is, the number of lines of the
    formatted block. *)
Theorem getLinesAdded_counts_block_lines (s : JsObject) (bt x : jsstring) :
  bt ∈ [js "codeblock"; js "quotation"; js "callout"] ->
  s !! "blockType" = Some (JStr bt) ->
  single_line x ->
  getLinesAdded s = newlines_introduced s x + 1
  /\ getLinesAdded s = length (split_nl (formatTranslation s x)).
Proof.
  intros _ _ Hx. split.
  - by apply newlines_introduced_plus_one.
  - symmetry. by apply formatTranslation_length_single.
Qed.

Lemma getLinesAdded_counts_block_lines_witness :
  getLinesAdded (setBlockType (js "callout") DEFAULT_SETTINGS)
  = newlines_introduced (setBlockType (js "callout") DEFAULT_SETTINGS)
      (js "Bonjour") + 1
  /\ getLinesAdded (setBlockType (js "callout") DEFAULT_SETTINGS)
     = length (split_nl (formatTranslation
                 (setBlockType (js "callout") DEFAULT_SETTINGS)
                 (js "Bonjour"))).
Proof.
  apply (getLinesAdded_counts_block_lines _ (js "callout")).
  - apply (bool_decide_unpack _). by vm_compute.
  - reflexivity.
  - apply (bool_decide_unpack _). by vm_compute.
Defined.

(** C7: the quotation arm prefixes every line of the text with the
    quotation marker and counts one line; the callout arm does the same
    under one line that declares a collapsible translation callout and
    counts two; a block type outside the three values leaves the text as it
    is and counts one. *)
Theorem formatTranslation_arms (s : JsObject) (text : jsstring) :
  (s !! "blockType" = Some (JStr (js "quotation")) ->
     split_nl (formatTranslation s text)
     = (fun l => js "> " ++ l) <$> split_nl text
     /\ getLinesAdded s = 1)
  /\ (s !! "blockType" = Some (JStr (js "callout")) ->
     split_nl (formatTranslation s text)
     = js "> [!translation]- ..." :: ((fun l => js "> " ++ l) <$> split_nl text)
     /\ getLinesAdded s = 2)
  /\ (s !! "blockType" ≠ Some (JStr (js "codeblock")) ->
      s !! "blockType" ≠ Some (JStr (js "quotation")) ->
      s !! "blockType" ≠ Some (JStr (js "callout")) ->
     formatTranslation s text = text /\ getLinesAdded s = 1).
Proof.
  split; [|split].
  - intros H%blockCase_quotation.
    rewrite formatTranslation_lines. unfold getLinesAdded. by rewrite H.
  - intros H%blockCase_callout.
    rewrite formatTranslation_lines. unfold getLinesAdded. by rewrite H.
  - intros H1 H2 H3. pose proof (blockCase_other s H1 H2 H3) as H.
    unfold formatTranslation, getLinesAdded. by rewrite H.
Qed.

Lemma formatTranslation_arms_witness :
  (split_nl (formatTranslation (setBlockType (js "quotation") DEFAULT_SETTINGS)
               (js "Salut" ++ [NL] ++ js "Monde"))
   = (fun l => js "> " ++ l) <$> split_nl (js "Salut" ++ [NL] ++ js "Monde")
   /\ getLinesAdded (setBlockType (js "quotation") DEFAULT_SETTINGS) = 1)
  /\ (split_nl (formatTranslation (setBlockType (js "callout") DEFAULT_SETTINGS)
                  (js "Salut"))
      = js "> [!translation]- ..."
          :: ((fun l => js "> " ++ l) <$> split_nl (js "Salut"))
      /\ getLinesAdded (setBlockType (js "callout") DEFAULT_SETTINGS) = 2)
  /\ (formatTranslation (setBlockType (js "table") DEFAULT_SETTINGS) (js "Salut")
      = js "Salut"
      /\ getLinesAdded (setBlockType (js "table") DEFAULT_SETTINGS) = 1).
Proof.
  split; [|split].
  - apply (formatTranslation_arms (setBlockType (js "quotation") DEFAULT_SETTINGS)).
    reflexivity.
  - apply (formatTranslation_arms (setBlockType (js "callout") DEFAULT_SETTINGS)).
    reflexivity.
  - apply (formatTranslation_arms (setBlockType (js "table") DEFAULT_SETTINGS));
      by vm_compute.
Defined.

(** ** Worlds and logs *)

Lemma emit_extend ev w : emit ev w = extend [ev] w.
Proof. reflexivity. Qed.

Lemma extend_extend a b w : extend b (extend a w) = extend (a ++ b) w.
Proof. unfold extend. simpl. by rewrite app_assoc. Qed.

Lemma setDoc_extend d evs w : setDoc d (extend evs w) = extend evs (setDoc d w).
Proof. reflexivity. Qed.

Lemma log_extend evs w : log (extend evs w) = log w ++ evs.
Proof. reflexivity. Qed.

Lemma log_setDoc d w : log (setDoc d w) = log w.
Proof. reflexivity. Qed.

Lemma doc_extend evs w : doc (editor (extend evs w)) = doc (editor w).
Proof. reflexivity. Qed.

Lemma doc_setDoc d w : doc (editor (setDoc d w)) = d.
Proof. reflexivity. Qed.

Lemma setDoc_setDoc d d' w : setDoc d (setDoc d' w) = setDoc d w.
Proof. reflexivity. Qed.

Lemma setDoc_same w : setDoc (doc (editor w)) w = w.
Proof. by destruct w as [[d a h] c b l]. Qed.

Lemma extend_nil w : extend [] w = w.
Proof. destruct w as [e c b l]. unfold extend. simpl. by rewrite app_nil_r. Qed.

Lemma translations_app a b : translations (a ++ b) = translations a ++ translations b.
Proof. apply omap_app. Qed.

Lemma inspections_app a b : inspections (a ++ b) = inspections a ++ inspections b.
Proof. apply omap_app. Qed.

Lemma notices_app a b : notices (a ++ b) = notices a ++ notices b.
Proof. apply omap_app. Qed.

Section BackendProperties.

Variable backend : nat -> jsstring -> option JsValue -> JsValue -> option jsstring.

(** ** Translation adapter *)

Lemma translateText_run s text w :
  translateText backend s text w
  = (Ok (answer backend s (length (translations (log w))) text),
     extend (translateEvents backend s (length (translations (log w))) text) w).
Proof.
  unfold translateText, try_catch, bind, sourceLanguage, translate, answer,
    translateEvents, effect, ret, throw.
  destruct (s !! "preferredLanguages") as [pl|]; simpl.
  - destruct (backend _ text _ _) as [r|]; simpl.
    + by rewrite emit_extend.
    + by rewrite !emit_extend, !extend_extend.
  - by rewrite !emit_extend, !extend_extend.
Qed.

Lemma translateEvents_translations s n text :
  is_Some (s !! "preferredLanguages") ->
  translations (translateEvents backend s n text) = [text].
Proof.
  intros [pl Hpl]. unfold translateEvents. rewrite Hpl.
  by destruct (backend _ _ _ _).
Qed.

Lemma translateEvents_inspections s n text :
  inspections (translateEvents backend s n text) = [].
Proof.
  unfold translateEvents. destruct (s !! "preferredLanguages"); [|done].
  by destruct (backend _ _ _ _).
Qed.

Lemma answer_unbroken s n text :
  (forall k t to from r, backend k t to from = Some r -> unbroken r) ->
  unbroken text -> unbroken (answer backend s n text).
Proof.
  intros Hb Ht. unfold answer. destruct (s !! "preferredLanguages") as [pl|]; [|done].
  destruct (backend _ _ _ _) as [r|] eqn:E; simpl; [by eapply Hb | done].
Qed.

(** C5: [translateText] never throws.  When the backend answers, the answer
    is returned after that single call; when the call fails, the failure is
    written to the console, one notice is shown and the input text is
    returned as it was, and so it is when the source language cannot be
    read from the settings; no case touches the document. *)
Theorem translateText_contains_failure (s : JsObject) (text : jsstring) (w : World) :
  let n := length (translations (log w)) in
  let to := s !! "targetLanguage" in
  (exists v w', translateText backend s text w = (Ok v, w'))
  /\ (forall pl, s !! "preferredLanguages" = Some pl ->
       match backend n text to (sourceHint pl) with
       | Some translated =>
           translateText backend s text w
           = (Ok translated, extend [ETranslate text to (sourceHint pl)] w)
       | None =>
           translateText backend s text w
           = (Ok text,
              extend [ETranslate text to (sourceHint pl);
                      EConsoleError BackendError;
                      ENotice (js "Error translating text. Please try again later.")]
                w)
       end)
  /\ (s !! "preferredLanguages" = None ->
      translateText backend s text w
      = (Ok text,
         extend [EConsoleError TypeError;
                 ENotice (js "Error translating text. Please try again later.")]
           w)).
Proof.
  intros n to. split; [|split].
  - rewrite translateText_run. eauto.
  - intros pl Hpl. rewrite translateText_run. unfold answer, translateEvents.
    rewrite Hpl. fold n to. by destruct (backend n text to (sourceHint pl)).
  - intros Hpl. rewrite translateText_run. unfold answer, translateEvents.
    by rewrite Hpl.
Qed.

(** ** One pass of the loop body *)

(** The lines the editor makes of the replacement: the line itself, then
    the lines of the formatted translation with its closing line feed. *)
Lemma replacement_lines_any s text translated :
  unbroken text ->
  split_lines (replacement s text translated)
  = text :: split_lines (formatTranslation s translated ++ [NL]).
Proof.
  intros Ht. unfold replacement.
  change (text ++ [NL] ++ formatTranslation s translated ++ [NL])
    with (text ++ NL :: (formatTranslation s translated ++ [NL])).
  by apply split_lines_after_line.
Qed.

(** Without a carriage return in the translation these are the lines of
    the formatted block and an empty line. *)
Lemma formatted_lines_cr_free s translated :
  CR ∉ translated ->
  split_lines (formatTranslation s translated ++ [NL])
  = split_nl (formatTranslation s translated) ++ [[]].
Proof.
  intros Hcr. rewrite split_lines_cr_free.
  - by rewrite split_nl_app.
  - apply not_elem_of_app. split; [by apply formatTranslation_cr_free|].
    apply (bool_decide_unpack _). by vm_compute.
Qed.

Lemma replacement_lines s text translated :
  unbroken text -> CR ∉ translated ->
  split_lines (replacement s text translated)
  = text :: split_nl (formatTranslation s translated) ++ [[]].
Proof.
  intros Ht Hcr. by rewrite replacement_lines_any, formatted_lines_cr_free.
Qed.

Lemma replaced_whole_line text' i text (d : list jsstring) :
  d !! i = Some text ->
  replaced text' (mkPos i 0) (mkPos i (length text)) d
  = Some (take i d ++ split_lines text' ++ drop (S i) d).
Proof.
  intros Hi. unfold replaced. simpl. rewrite Hi.
  by rewrite drop_all, app_nil_r.
Qed.

Lemma body_blank s i e w text :
  doc (editor w) !! i = Some text -> isBlank text = true ->
  body backend s i e w = (Ok (i, e), extend [EGetLine i text] w).
Proof.
  intros Hi Hb. unfold body, bind, getLine. rewrite Hi, Hb. reflexivity.
Qed.

Lemma body_translates s i e w text :
  doc (editor w) !! i = Some text -> isBlank text = false ->
  let n := length (translations (log w)) in
  let text' := replacement s text (answer backend s n text) in
  body backend s i e w
  = (Ok (i + (getLinesAdded s + 1), e + (getLinesAdded s + 1)),
     extend ([EGetLine i text] ++ translateEvents backend s n text
             ++ [EReplaceRange text' (mkPos i 0) (mkPos i (length text))])
       (setDoc (take i (doc (editor w)) ++ split_lines text'
                ++ drop (S i) (doc (editor w))) w)).
Proof.
  intros Hi Hb n text'. unfold body, bind, getLine. rewrite Hi, Hb.
  change (negb false) with true. cbv beta iota. rewrite translateText_run.
  assert (Hn : length (translations (log (emit (EGetLine i text) w))) = n).
  { simpl. rewrite translations_app. simpl. by rewrite app_nil_r. }
  rewrite Hn. fold (replacement s text (answer backend s n text)). fold text'.
  unfold replaceRange. simpl editor. simpl doc.
  rewrite (replaced_whole_line text' i text _ Hi). unfold ret.
  rewrite !emit_extend.
  repeat first [rewrite setDoc_extend | rewrite extend_extend]. reflexivity.
Qed.

Lemma body_out_of_range s i e w :
  doc (editor w) !! i = None -> body backend s i e w = (Throw RangeError, w).
Proof. intros Hi. unfold body, bind, getLine. by rewrite Hi. Qed.

(** Whatever the body does, it moves [i] and [endLine] by the same
    amount: nothing at a blank line, [getLinesAdded + 1] otherwise. *)
Lemma body_advance s i e w i' e' w' :
  body backend s i e w = (Ok (i', e'), w') ->
  (i' = i /\ e' = e)
  \/ (i' = i + (getLinesAdded s + 1) /\ e' = e + (getLinesAdded s + 1)).
Proof.
  destruct (doc (editor w) !! i) as [text|] eqn:Hi.
  - destruct (isBlank text) eqn:Hb.
    + rewrite (body_blank s i e w text Hi Hb). intros [= <- <- <-]. by left.
    + rewrite (body_translates s i e w text Hi Hb). intros [= <- <- <-]. by right.
  - by rewrite (body_out_of_range s i e w Hi).
Qed.

(** ** The range of the command *)

(** The range is ordered, and inside the document when the two ends of the
    selection are. *)
Lemma lineRange_inside (e : Editor) :
  line (anchor e) < length (doc e) -> line (head e) < length (doc e) ->
  (lineRange e).1 <= (lineRange e).2 /\ (lineRange e).2 < length (doc e).
Proof.
  intros Ha Hh. unfold lineRange, getCursor, pos_le.
  destruct (getSelection e); simpl; [lia|].
  destruct (line (anchor e) <? line (head e)) eqn:Hlt; simpl.
  - apply Nat.ltb_lt in Hlt. lia.
  - apply Nat.ltb_ge in Hlt.
    destruct (line (anchor e) =? line (head e)) eqn:Heq; simpl.
    + apply Nat.eqb_eq in Heq. destruct (ch (anchor e) <=? ch (head e)); lia.
    + apply Nat.eqb_neq in Heq. lia.
Qed.

(** ** Termination of the loop *)

Lemma split_nl_length_pos text : 1 <= length (split_nl text).
Proof.
  pose proof (split_nl_not_nil text). destruct (split_nl text); [done | simpl; lia].
Qed.

(** The replacement makes at least [getLinesAdded + 2] lines, whatever the
    backend answered. *)
Lemma replacement_length s text translated :
  getLinesAdded s + 2 <= length (split_lines (replacement s text translated)).
Proof.
  etrans; [|apply split_lines_length]. unfold replacement.
  change (text ++ [NL] ++ formatTranslation s translated ++ [NL])
    with (text ++ NL :: (formatTranslation s translated ++ NL :: [])).
  rewrite !split_nl_app, !length_app.
  pose proof (formatTranslation_length s translated).
  pose proof (split_nl_length_pos text).
  pose proof (split_nl_length_pos translated). simpl. lia.
Qed.

Lemma forLoop_done fuel s i e w :
  e < i -> forLoop backend fuel s i e w = Some (Ok tt, w).
Proof.
  intros H. assert ((i <=? e) = false) as Hle by (apply Nat.leb_gt; lia).
  destruct fuel; simpl; by rewrite Hle.
Qed.

Lemma forLoop_step fuel s i e w :
  i <= e ->
  forLoop backend (S fuel) s i e w
  = match body backend s i e w with
    | (Ok (i', e'), w') => forLoop backend fuel s (i' + 1) e' w'
    | (Throw err, w') => Some (Throw err, w')
    end.
Proof. intros H. simpl. apply Nat.leb_le in H. by rewrite H. Qed.

Lemma forLoop_terminates s fuel : forall i e w,
  S e - i <= fuel -> exists r, forLoop backend fuel s i e w = Some r.
Proof.
  induction fuel as [|fuel IH]; intros i e w Hfuel.
  - rewrite forLoop_done by lia. eauto.
  - destruct (decide (i <= e)) as [Hle|Hgt].
    + rewrite forLoop_step by done.
      destruct (body backend s i e w) as [[[i' e']|err] w'] eqn:Hbody; [|eauto].
      apply IH. apply body_advance in Hbody. lia.
    + rewrite forLoop_done by lia. eauto.
Qed.

(** Inside the document the loop never throws, and it reads one line per
    pass, [endLine - i + 1] lines in all. *)
Lemma forLoop_passes s fuel : forall i e w,
  S e - i <= fuel -> e < length (doc (editor w)) ->
  exists w', forLoop backend fuel s i e w = Some (Ok tt, w')
    /\ length (inspections (log w')) = length (inspections (log w)) + (S e - i).
Proof.
  induction fuel as [|fuel IH]; intros i e w Hfuel Hdoc.
  - rewrite forLoop_done by lia. exists w. split; [done | lia].
  - destruct (decide (i <= e)) as [Hle|Hgt].
    2:{ rewrite forLoop_done by lia. exists w. split; [done | lia]. }
    rewrite forLoop_step by done.
    destruct (lookup_lt_is_Some_2 (doc (editor w)) i) as [text Hi]; [lia|].
    destruct (isBlank text) eqn:Hb.
    + rewrite (body_blank s i e w text Hi Hb).
      destruct (IH (i + 1) e (extend [EGetLine i text] w)) as (w' & Hrun & Hlen);
        [lia | done |].
      exists w'. split; [done|]. rewrite Hlen, log_extend.
      rewrite inspections_app, length_app. simpl. lia.
    + rewrite (body_translates s i e w text Hi Hb).
      set (n := length (translations (log w))).
      set (text' := replacement s text (answer backend s n text)).
      pose proof (replacement_length s text (answer backend s n text)) as Hrep.
      fold text' in Hrep.
      match goal with |- context [forLoop backend fuel s ?j ?f ?v] =>
        destruct (IH j f v) as (w' & Hrun & Hlen) end.
      * lia.
      * rewrite doc_extend, doc_setDoc.
        rewrite !length_app, length_take, length_drop. lia.
      * exists w'. split; [done|]. rewrite Hlen, log_extend, log_setDoc.
        rewrite !inspections_app, translateEvents_inspections, !length_app.
        simpl. lia.
Qed.

(** ** The loop over a range of original lines *)

Lemma forLoop_selection s sel : forall pre post i e n w,
  is_Some (s !! "preferredLanguages") ->
  (forall k t to from r, backend k t to from = Some r -> unbroken r) ->
  Forall unbroken sel ->
  doc (editor w) = pre ++ sel ++ post ->
  length pre = i -> S e = i + length sel ->
  n = length (translations (log w)) ->
  exists evs,
    forLoop backend (length sel) s i e w
    = Some (Ok tt, extend evs (setDoc (pre ++ concat (blocks backend s n sel) ++ post) w))
    /\ translations evs = filter nonblank sel
    /\ inspections evs = zip (starts i (blocks backend s n sel)) sel.
Proof.
  induction sel as [|text rest IH]; intros pre post i e n w Hpl Hb Hsel Hdoc Hi He Hn.
  - exists []. rewrite forLoop_done by (simpl in He; lia).
    simpl in *. rewrite <- Hdoc, setDoc_same, extend_nil. done.
  - apply Forall_cons in Hsel as [Htext Hrest].
    simpl length in *. rewrite forLoop_step by lia.
    assert (doc (editor w) !! i = Some text) as Hlook.
    { rewrite Hdoc, lookup_app_r by lia.
      replace (i - length pre) with 0 by lia. done. }
    destruct (isBlank text) eqn:Hblank.
    + rewrite (body_blank s i e w text Hlook Hblank).
      destruct (IH (pre ++ [text]) post (i + 1) e n (extend [EGetLine i text] w))
        as (evs & Hrun & Htr & Hins); try done.
      * rewrite doc_extend, Hdoc, <- app_assoc. done.
      * rewrite length_app. simpl. lia.
      * lia.
      * rewrite log_extend, translations_app. simpl. by rewrite app_nil_r.
      * exists (EGetLine i text :: evs). split; [|split].
        -- rewrite Hrun, setDoc_extend, extend_extend. simpl blocks.
           unfold block. rewrite Hblank. simpl concat.
           by rewrite <- !app_assoc.
        -- simpl. rewrite Htr, filter_cons_False; [done|].
           unfold nonblank. by rewrite Hblank.
        -- simpl blocks. unfold block at 1. rewrite Hblank. simpl.
           by rewrite Hins.
    + rewrite (body_translates s i e w text Hlook Hblank). rewrite <- Hn.
      set (text' := replacement s text (answer backend s n text)).
      pose proof (answer_unbroken s n text Hb Htext) as [Hans Hcr].
      assert (split_lines text' = block backend s n text) as Hblock.
      { unfold text', block. rewrite Hblank. by apply replacement_lines. }
      assert (length (block backend s n text) = getLinesAdded s + 2) as Hlen.
      { unfold block. rewrite Hblank. simpl. rewrite length_app.
        rewrite formatTranslation_length_single by done. simpl. lia. }
      assert (take i (doc (editor w)) ++ split_lines text'
                ++ drop (S i) (doc (editor w))
              = (pre ++ block backend s n text) ++ rest ++ post) as Hnew.
      { rewrite Hblock, Hdoc. subst i.
        rewrite take_app_length.
        replace (S (length pre)) with (length (pre ++ [text]))
          by (rewrite length_app; simpl; lia).
        change (pre ++ (text :: rest) ++ post) with (pre ++ [text] ++ rest ++ post).
        rewrite (app_assoc pre [text]), drop_app_length. by rewrite <- app_assoc. }
      rewrite Hnew.
      match goal with |- context [forLoop backend _ s ?j ?f ?v] =>
        destruct (IH (pre ++ block backend s n text) post j f (S n) v)
          as (evs & Hrun & Htr & Hins) end; try done.
      * rewrite length_app. lia.
      * lia.
      * rewrite log_extend, log_setDoc, !translations_app.
        rewrite translateEvents_translations by done. simpl.
        rewrite length_app. simpl. lia.
      * eexists. split; [|split].
        -- rewrite Hrun, setDoc_extend, setDoc_setDoc, extend_extend.
           simpl blocks. rewrite Hblank. simpl concat.
           rewrite <- !app_assoc. reflexivity.
        -- rewrite !translations_app, translateEvents_translations by done.
           simpl. rewrite Htr, filter_cons_True; [done|]. exact Hblank.
        -- rewrite !inspections_app, translateEvents_inspections. simpl.
           rewrite Hins. simpl blocks. rewrite Hblank. simpl starts. simpl zip.
           do 3 f_equal. lia.
Qed.



(** ** The per-line command *)

(** C1: at a line that is not blank the body of the loop calls
    [replaceRange] on the whole of that line with the line, a line feed, the
    formatted translation and a line feed.  The editor keeps the line and
    puts after it, as new lines, the lines it makes of the formatted
    translation and its closing line feed: the lines of the block and one
    empty line when the translation holds no carriage return.  The body
    then leaves both [i] and [endLine] larger by [getLinesAdded + 1]. *)
Theorem body_appends_block_and_advances (s : JsObject) (i endLine : nat)
    (w : World) (text : jsstring) :
  doc (editor w) !! i = Some text ->
  isBlank text = false ->
  unbroken text ->
  exists translated w1 w',
    translateText backend s text (emit (EGetLine i text) w) = (Ok translated, w1)
    /\ body backend s i endLine w
       = (Ok (i + (getLinesAdded s + 1), endLine + (getLinesAdded s + 1)), w')
    /\ last (log w')
       = Some (EReplaceRange (text ++ [NL] ++ formatTranslation s translated ++ [NL])
                 (mkPos i 0) (mkPos i (length text)))
    /\ doc (editor w')
       = take i (doc (editor w))
         ++ [text] ++ split_lines (formatTranslation s translated ++ [NL])
         ++ drop (S i) (doc (editor w))
    /\ (CR ∉ translated ->
        doc (editor w')
        = take i (doc (editor w))
          ++ [text] ++ split_nl (formatTranslation s translated) ++ [[]]
          ++ drop (S i) (doc (editor w))).
Proof.
  intros Hi Hb Ht. rewrite translateText_run.
  assert (length (translations (log (emit (EGetLine i text) w)))
          = length (translations (log w))) as Hn.
  { simpl. rewrite translations_app. simpl. by rewrite app_nil_r. }
  rewrite Hn. set (n := length (translations (log w))).
  do 3 eexists. split; [reflexivity|].
  rewrite (body_translates s i endLine w text Hi Hb). fold n.
  split; [reflexivity|]. split; [|split].
  - rewrite log_extend, log_setDoc, !last_app. reflexivity.
  - by rewrite doc_extend, doc_setDoc, replacement_lines_any.
  - intros Hcr. rewrite doc_extend, doc_setDoc, replacement_lines by done.
    simpl. by rewrite <- app_assoc.
Qed.

(** C6: at a blank line the body only reads the line: the document and the
    clipboard are as before, no translation is asked for, nothing is
    replaced, and [i] and [endLine] are returned as they were, so that the
    loop goes on at [i + 1] with the same [endLine]. *)
Theorem blank_line_left_alone (s : JsObject) (i endLine : nat) (w : World)
    (text : jsstring) (fuel : nat) :
  doc (editor w) !! i = Some text ->
  isBlank text = true ->
  let w' := snd (body backend s i endLine w) in
  body backend s i endLine w = (Ok (i, endLine), extend [EGetLine i text] w)
  /\ editor w' = editor w
  /\ clipboard w' = clipboard w
  /\ translations (log w') = translations (log w)
  /\ (i <= endLine ->
      forLoop backend (S fuel) s i endLine w
      = forLoop backend fuel s (i + 1) endLine w').
Proof.
  intros Hi Hb w'. unfold w'. rewrite (body_blank s i endLine w text Hi Hb).
  repeat split.
  - simpl. rewrite translations_app. simpl. by rewrite app_nil_r.
  - intros Hle. rewrite forLoop_step by done.
    by rewrite (body_blank s i endLine w text Hi Hb).
Qed.

(** C10: the loop ends whatever the range and the answers of the backend.
    A pass of the body leaves [i] and [endLine] as they were or adds
    [getLinesAdded + 1] to both, so with the increment of the [for]
    statement [endLine - i] goes down by one at each pass;
    [endLine - startLine + 1] units of fuel are enough, and when the cursor
    and the selection are inside the document the command reads that many
    lines, one per pass, and returns. *)
Theorem forLoop_terminates_in_range_length (s : JsObject)
    (startLine endLine : nat) (w : World) :
  (forall i e w0 i' e' w',
      body backend s i e w0 = (Ok (i', e'), w') ->
      ((i' + 1 = i + 1 /\ e' = e)
       \/ (i' + 1 = i + (getLinesAdded s + 2) /\ e' = e + (getLinesAdded s + 1)))
      /\ (Z.of_nat e' - Z.of_nat (i' + 1) = Z.of_nat e - Z.of_nat i - 1)%Z)
  /\ (exists r, forLoop backend (S endLine - startLine) s startLine endLine w = Some r)
  /\ (line (anchor (editor w)) < length (doc (editor w)) ->
      line (head (editor w)) < length (doc (editor w)) ->
      lineRange (editor w) = (startLine, endLine) ->
      startLine <= endLine
      /\ exists w',
          inlineTranslateLine backend (endLine - startLine + 1) s w
          = Some (Ok tt, w')
          /\ length (inspections (log w'))
             = length (inspections (log w)) + (endLine - startLine + 1)).
Proof.
  split; [|split].
  - intros i e w0 i' e' w' Hbody. apply body_advance in Hbody. lia.
  - by apply forLoop_terminates.
  - intros Ha Hh Hrange.
    pose proof (lineRange_inside (editor w) Ha Hh) as Hin.
    rewrite Hrange in Hin. simpl in Hin. destruct Hin as [Hle Hdoc].
    split; [done|].
    unfold inlineTranslateLine. rewrite Hrange.
    destruct (forLoop_passes s (endLine - startLine + 1) startLine endLine w)
      as (w' & Hrun & Hlen); [lia | done |].
    exists w'. split; [done|]. rewrite Hlen. lia.
Qed.


(** C3 (amended): with block type [codeblock], at the line [Hello] for
    which the backend answers [Bonjour], the document holds at that place
    the line [Hello], a fenced block around [Bonjour] and an empty line; the
    body leaves [i] at the original index plus 4, and after the increment
    of the [for] statement the next line the loop inspects is at the
    original index plus 5, where the line that followed [Hello] now
    stands. *)
Theorem codeblock_scenario (s : JsObject) (pl : JsValue)
    (pre post : list jsstring) (endLine fuel : nat) (w : World) :
  s !! "blockType" = Some (JStr (js "codeblock")) ->
  s !! "targetLanguage" = Some (JStr (js "fr")) ->
  s !! "preferredLanguages" = Some pl ->
  backend (length (translations (log w))) (js "Hello")
    (Some (JStr (js "fr"))) (sourceHint pl) = Some (js "Bonjour") ->
  doc (editor w) = pre ++ [js "Hello"] ++ post ->
  length pre <= endLine ->
  exists w',
    body backend s (length pre) endLine w = (Ok (length pre + 4, endLine + 4), w')
    /\ doc (editor w')
       = pre ++ [js "Hello"; js "```"; js "Bonjour"; js "```"; []] ++ post
    /\ forLoop backend (S fuel) s (length pre) endLine w
       = forLoop backend fuel s (length pre + 5) (endLine + 4) w'
    /\ doc (editor w') !! (length pre + 5) = post !! 0.
Proof.
  intros Hbt Hto Hpl Hback Hdoc Hle.
  assert (doc (editor w) !! length pre = Some (js "Hello")) as Hi.
  { rewrite Hdoc, lookup_app_r by lia. by rewrite Nat.sub_diag. }
  assert (getLinesAdded s = 3) as HL.
  { unfold getLinesAdded. by rewrite (blockCase_codeblock s Hbt). }
  assert (answer backend s (length (translations (log w))) (js "Hello")
          = js "Bonjour") as Ha.
  { unfold answer. by rewrite Hpl, Hto, Hback. }
  pose proof (body_translates s (length pre) endLine w (js "Hello") Hi eq_refl) as Hbody.
  cbv zeta in Hbody. rewrite Ha, HL in Hbody.
  assert (split_lines (replacement s (js "Hello") (js "Bonjour"))
          = [js "Hello"; js "```"; js "Bonjour"; js "```"; []]) as Hrep.
  { rewrite replacement_lines by (apply (bool_decide_unpack _); by vm_compute).
    rewrite formatTranslation_lines, (blockCase_codeblock s Hbt). reflexivity. }
  eexists. split; [exact Hbody|].
  assert (take (length pre) (doc (editor w)) = pre) as Htake
    by (by rewrite Hdoc, take_app_length).
  assert (drop (S (length pre)) (doc (editor w)) = post) as Hdrop.
  { rewrite Hdoc, app_assoc.
    replace (S (length pre)) with (length (pre ++ [js "Hello"]))
      by (rewrite length_app; simpl; lia).
    by rewrite drop_app_length. }
  rewrite doc_extend, doc_setDoc, Hrep, Htake, Hdrop.
  split; [reflexivity|]. split.
  - rewrite forLoop_step by done. rewrite Hbody, Hrep, Htake, Hdrop.
    f_equal; lia.
  - rewrite lookup_app_r by lia.
    replace (length pre + 5 - length pre) with 5 by lia. reflexivity.
Qed.

(** ** The clipboard command *)

(** C9: without a selection the clipboard command shows the notice
    [No text selected for translation.] and does nothing else: the editor
    and the clipboard are as before and no translation is asked for. *)
Theorem translateToNotice_without_selection (s : JsObject) (w : World) :
  getSelection (editor w) = [] ->
  let w' := snd (translateToNotice backend s w) in
  translateToNotice backend s w
  = (Ok tt, extend [ENotice (js "No text selected for translation.")] w)
  /\ notices (log w') = notices (log w) ++ [js "No text selected for translation."]
  /\ clipboard w' = clipboard w
  /\ translations (log w') = translations (log w)
  /\ editor w' = editor w.
Proof.
  intros Hsel w'. unfold w', translateToNotice. rewrite Hsel.
  repeat split.
  - simpl. by rewrite notices_app.
  - simpl. rewrite translations_app. simpl. by rewrite app_nil_r.
Qed.

End BackendProperties.

(** ** Settings *)

Lemma loadSettings_lookup (p : Plugin) (k : string) :
  settings (loadSettings p) !! k
  = match data p with
    | Some persisted =>
        match persisted !! k with
        | Some v => Some v
        | None => DEFAULT_SETTINGS !! k
        end
    | None => DEFAULT_SETTINGS !! k
    end.
Proof.
  unfold loadSettings, loadData, Object_assign. simpl.
  rewrite (right_id_L ∅ (∪) DEFAULT_SETTINGS).
  destruct (data p) as [persisted|]; [|done].
  destruct (persisted !! k) as [v|] eqn:Hk.
  - by apply lookup_union_Some_l.
  - by apply lookup_union_r.
Qed.

(** C8: [loadSettings] lays the persisted object over the defaults: a field
    the persisted object has keeps its persisted value, a field it lacks
    has the default ([codeblock], no preferred language, [en]), and with
    nothing persisted the settings are the defaults.  After
    [saveSettings], [loadSettings] gives back every field the settings had,
    and the very same settings when they have the fields of the defaults. *)
Theorem loadSettings_overlays_defaults (p : Plugin) :
  (forall persisted k, data p = Some persisted ->
     settings (loadSettings p) !! k
     = match persisted !! k with
       | Some v => Some v
       | None => DEFAULT_SETTINGS !! k
       end)
  /\ (data p = None -> settings (loadSettings p) = DEFAULT_SETTINGS)
  /\ (DEFAULT_SETTINGS !! "blockType" = Some (JStr (js "codeblock"))
      /\ DEFAULT_SETTINGS !! "preferredLanguages" = Some (JArr [])
      /\ DEFAULT_SETTINGS !! "targetLanguage" = Some (JStr (js "en")))
  /\ (forall k v, settings p !! k = Some v ->
        settings (loadSettings (saveSettings p)) !! k = Some v)
  /\ (dom DEFAULT_SETTINGS ⊆ dom (settings p) ->
        settings (loadSettings (saveSettings p)) = settings p).
Proof.
  split; [|split; [|split; [|split]]].
  - intros persisted k Hdata. by rewrite loadSettings_lookup, Hdata.
  - intros Hdata. apply map_eq. intros k. by rewrite loadSettings_lookup, Hdata.
  - done.
  - intros k v Hk. rewrite loadSettings_lookup. simpl. by rewrite Hk.
  - intros Hdom. apply map_eq. intros k. rewrite loadSettings_lookup. simpl.
    destruct (settings p !! k) as [v|] eqn:Hk; [done|].
    apply not_elem_of_dom in Hk. apply not_elem_of_dom.
    intros Hin. apply Hk. by apply Hdom.
Qed.

(** * Concrete runs *)

(** C3 (as stated, refuted): on the document [Hello], blank, [World] with
    block type [codeblock] and the answer [Bonjour], the fenced block is
    inserted after [Hello] as the scenario says, but the line the loop
    inspects next is at index 5, not at index 0 + 4. *)
Lemma codeblock_next_index_is_not_plus_four :
  exists w',
    inlineTranslateLine (answering (js "Bonjour")) 3 scenarioSettings selectedDocument
    = Some (Ok tt, w')
    /\ take 5 (doc (editor w'))
       = [js "Hello"; js "```"; js "Bonjour"; js "```"; []]
    /\ (inspections (log w')).*1 !! 0 = Some 0
    /\ (inspections (log w')).*1 !! 1 = Some 5
    /\ (inspections (log w')).*1 !! 1 <> Some (0 + 4).
Proof.
  eexists. split; [by vm_compute|]. by vm_compute.
Qed.

Lemma codeblock_scenario_witness :
  exists w',
    body (answering (js "Bonjour")) scenarioSettings 0 2 selectedDocument
    = (Ok (0 + 4, 2 + 4), w')
    /\ doc (editor w')
       = [] ++ [js "Hello"; js "```"; js "Bonjour"; js "```"; []]
            ++ [js "  "; js "World"]
    /\ forLoop (answering (js "Bonjour")) 3 scenarioSettings 0 2 selectedDocument
       = forLoop (answering (js "Bonjour")) 2 scenarioSettings (0 + 5) (2 + 4) w'
    /\ doc (editor w') !! (0 + 5) = [js "  "; js "World"] !! 0.
Proof.
  apply (codeblock_scenario (answering (js "Bonjour")) scenarioSettings (JArr [])
           [] [js "  "; js "World"] 2 2 selectedDocument);
    first [reflexivity | simpl; lia].
Defined.

Lemma body_appends_block_and_advances_witness :
  exists translated w1 w',
    translateText (answering (js "Bonjour")) scenarioSettings (js "World")
      (emit (EGetLine 2 (js "World")) selectedDocument) = (Ok translated, w1)
    /\ body (answering (js "Bonjour")) scenarioSettings 2 2 selectedDocument
       = (Ok (2 + (getLinesAdded scenarioSettings + 1),
              2 + (getLinesAdded scenarioSettings + 1)), w')
    /\ last (log w')
       = Some (EReplaceRange
                 (js "World" ++ [NL]
                  ++ formatTranslation scenarioSettings translated ++ [NL])
                 (mkPos 2 0) (mkPos 2 (length (js "World"))))
    /\ doc (editor w')
       = take 2 (doc (editor selectedDocument))
         ++ [js "World"]
         ++ split_lines (formatTranslation scenarioSettings translated ++ [NL])
         ++ drop 3 (doc (editor selectedDocument))
    /\ (CR ∉ translated ->
        doc (editor w')
        = take 2 (doc (editor selectedDocument))
          ++ [js "World"] ++ split_nl (formatTranslation scenarioSettings translated)
          ++ [[]] ++ drop 3 (doc (editor selectedDocument))).
Proof.
  apply (body_appends_block_and_advances (answering (js "Bonjour"))
           scenarioSettings 2 2 selectedDocument (js "World")).
  - reflexivity.
  - reflexivity.
  - apply (bool_decide_unpack _). by vm_compute.
Defined.

Lemma blank_line_left_alone_witness :
  body failing scenarioSettings 1 2 selectedDocument
  = (Ok (1, 2), extend [EGetLine 1 (js "  ")] selectedDocument)
  /\ editor (snd (body failing scenarioSettings 1 2 selectedDocument))
     = editor selectedDocument
  /\ clipboard (snd (body failing scenarioSettings 1 2 selectedDocument))
     = clipboard selectedDocument
  /\ translations (log (snd (body failing scenarioSettings 1 2 selectedDocument)))
     = translations (log selectedDocument)
  /\ (1 <= 2 ->
      forLoop failing 2 scenarioSettings 1 2 selectedDocument
      = forLoop failing 1 scenarioSettings (1 + 1) 2
          (snd (body failing scenarioSettings 1 2 selectedDocument))).
Proof.
  apply (blank_line_left_alone failing scenarioSettings 1 2 selectedDocument
           (js "  ") 1); reflexivity.
Defined.

Lemma translateText_contains_failure_witness :
  translateText failing DEFAULT_SETTINGS (js "Hello") cursorOnly
  = (Ok (js "Hello"),
     extend [ETranslate (js "Hello") (Some (JStr (js "en"))) (JStr (js "auto"));
             EConsoleError BackendError;
             ENotice (js "Error translating text. Please try again later.")]
       cursorOnly).
Proof.
  exact (proj1 (proj2 (translateText_contains_failure failing DEFAULT_SETTINGS
                         (js "Hello") cursorOnly)) (JArr []) eq_refl).
Defined.

Lemma translateToNotice_without_selection_witness :
  translateToNotice (answering (js "Bonjour")) DEFAULT_SETTINGS cursorOnly
  = (Ok tt, extend [ENotice (js "No text selected for translation.")] cursorOnly).
Proof.
  apply (translateToNotice_without_selection (answering (js "Bonjour"))
           DEFAULT_SETTINGS cursorOnly).
  reflexivity.
Defined.

Lemma forLoop_terminates_in_range_length_witness :
  0 <= 2
  /\ exists w',
      inlineTranslateLine (answering (js "Bonjour" ++ [NL] ++ js "le monde"))
        (2 - 0 + 1) DEFAULT_SETTINGS selectedDocument = Some (Ok tt, w')
      /\ length (inspections (log w'))
         = length (inspections (log selectedDocument)) + (2 - 0 + 1).
Proof.
  apply (forLoop_terminates_in_range_length
           (answering (js "Bonjour" ++ [NL] ++ js "le monde"))
           DEFAULT_SETTINGS 0 2 selectedDocument).
  - simpl. lia.
  - simpl. lia.
  - by vm_compute.
Defined.


Lemma loadSettings_overlays_defaults_witness :
  settings (loadSettings
              {| settings := ∅;
                 data := Some {["targetLanguage" := JStr (js "fr")]} |})
    !! "targetLanguage" = Some (JStr (js "fr"))
  /\ settings (loadSettings
                 {| settings := ∅;
                    data := Some {["targetLanguage" := JStr (js "fr")]} |})
       !! "blockType" = Some (JStr (js "codeblock"))
  /\ settings (loadSettings (saveSettings
                 {| settings := scenarioSettings; data := None |}))
     = scenarioSettings.
Proof.
  pose proof (loadSettings_overlays_defaults
                {| settings := ∅;
                   data := Some {["targetLanguage" := JStr (js "fr")]} |})
    as [Hload _].
  pose proof (loadSettings_overlays_defaults
                {| settings := scenarioSettings; data := None |})
    as (_ & _ & _ & _ & Hsame).
  split; [exact (Hload _ "targetLanguage" eq_refl)|].
  split; [exact (Hload _ "blockType" eq_refl)|].
  apply Hsame. apply (bool_decide_unpack _). by vm_compute.
Defined.

(** * Further properties *)

(** ** Splitting on a separator *)

Lemma split_on_cons_sep sep rest :
  split_on sep (sep :: rest) = [] :: split_on sep rest.
Proof. simpl. by rewrite N.eqb_refl. Qed.

Lemma split_on_cons sep c rest :
  c ≠ sep ->
  split_on sep (c :: rest) =
    match split_on sep rest with
    | piece :: pieces => (c :: piece) :: pieces
    | [] => [[c]]
    end.
Proof.
  intros Hc. simpl. destruct (N.eqb_spec c sep); [contradiction | reflexivity].
Qed.

Lemma split_on_not_nil sep text : split_on sep text ≠ [].
Proof.
  destruct text as [|c rest]; simpl; [discriminate|].
  destruct (c =? sep)%N; [discriminate|].
  destruct (split_on sep rest); discriminate.
Qed.

Lemma split_on_free sep text : sep ∉ text -> split_on sep text = [text].
Proof.
  induction text as [|c rest IH]; intros Hfree; [reflexivity|].
  apply not_elem_of_cons in Hfree as [Hc Hrest].
  rewrite split_on_cons by congruence. by rewrite IH.
Qed.

Lemma split_on_app sep a b :
  split_on sep (a ++ sep :: b) = split_on sep a ++ split_on sep b.
Proof.
  induction a as [|c a IH]; [apply split_on_cons_sep|].
  destruct (decide (c = sep)) as [->|Hc].
  - rewrite <- app_comm_cons, !split_on_cons_sep, IH. reflexivity.
  - rewrite <- app_comm_cons, !split_on_cons, IH by done.
    pose proof (split_on_not_nil sep a) as Ha.
    destruct (split_on sep a); [contradiction | reflexivity].
Qed.

Lemma split_on_pieces sep text : Forall (fun piece => sep ∉ piece) (split_on sep text).
Proof.
  induction text as [|c rest IH].
  - repeat constructor. apply not_elem_of_nil.
  - destruct (decide (c = sep)) as [->|Hc].
    + rewrite split_on_cons_sep. constructor; [apply not_elem_of_nil | done].
    + rewrite split_on_cons by done.
      pose proof (split_on_not_nil sep rest) as Hne.
      destruct (split_on sep rest) as [|piece pieces]; [contradiction|].
      apply Forall_cons in IH as [Hp Hps]. constructor; [|done].
      apply not_elem_of_cons. split; [congruence | done].
Qed.

Lemma split_on_join sep pieces :
  pieces ≠ [] -> Forall (fun piece => sep ∉ piece) pieces ->
  split_on sep (join [sep] pieces) = pieces.
Proof.
  induction pieces as [|p rest IH]; [done|]. intros _ Hall.
  apply Forall_cons in Hall as [Hp Hrest].
  destruct rest as [|q rest].
  - simpl. by apply split_on_free.
  - change (join [sep] (p :: q :: rest)) with (p ++ sep :: join [sep] (q :: rest)).
    rewrite split_on_app, IH by done. by rewrite split_on_free.
Qed.

(** [split_nl] is [split_on] at the line feed. *)
Lemma split_nl_split_on text : split_nl text = split_on NL text.
Proof.
  induction text as [|c rest IH]; [reflexivity|]. simpl. by rewrite IH.
Qed.

(** ** Trimming *)

Lemma trimStart_clean text : starts_clean (trimStart text).
Proof.
  induction text as [|c rest IH]; [done|]. simpl.
  destruct (isSpace c) eqn:Hc; [done | exact Hc].
Qed.

Lemma trimStart_id text : starts_clean text -> trimStart text = text.
Proof. destruct text as [|c rest]; [done|]. simpl. by intros ->. Qed.

Lemma trimStart_blank text : trimStart text = [] <-> isBlank text = true.
Proof.
  unfold isBlank. induction text as [|c rest IH]; [done|]. simpl.
  destruct (isSpace c); simpl; [done|]. split; discriminate.
Qed.

Lemma trimStart_elem c text : c ∈ trimStart text -> c ∈ text.
Proof.
  induction text as [|x rest IH]; [done|]. simpl.
  destruct (isSpace x); [|done]. intros H. right. by apply IH.
Qed.

Lemma trimEnd_snoc text c :
  trimEnd (text ++ [c]) = if isSpace c then trimEnd text else text ++ [c].
Proof.
  unfold trimEnd. rewrite reverse_snoc. simpl.
  destruct (isSpace c); [done|]. by rewrite reverse_cons, reverse_involutive.
Qed.

Lemma trimEnd_clean_start text : starts_clean text -> starts_clean (trimEnd text).
Proof.
  induction text as [|c text IH] using rev_ind; [done|]. intros Hclean.
  rewrite trimEnd_snoc. destruct (isSpace c); [|done].
  apply IH. by destruct text.
Qed.

Lemma trimEnd_clean_end text : starts_clean (reverse (trimEnd text)).
Proof. unfold trimEnd. rewrite reverse_involutive. apply trimStart_clean. Qed.

Lemma trimEnd_id text : starts_clean (reverse text) -> trimEnd text = text.
Proof.
  intros H. unfold trimEnd. by rewrite trimStart_id, reverse_involutive.
Qed.

Lemma trimEnd_elem c text : c ∈ trimEnd text -> c ∈ text.
Proof.
  unfold trimEnd. rewrite elem_of_reverse. intros H%trimStart_elem.
  by apply elem_of_reverse.
Qed.

Lemma trim_trimmed text : trimmed (trim text).
Proof.
  split.
  - apply trimEnd_clean_start, trimStart_clean.
  - apply trimEnd_clean_end.
Qed.

Lemma trim_id text : trimmed text -> trim text = text.
Proof. intros [Hs He]. unfold trim. by rewrite (trimStart_id _ Hs), trimEnd_id. Qed.

Lemma trim_elem c text : c ∈ trim text -> c ∈ text.
Proof. intros H%trimEnd_elem. by apply trimStart_elem. Qed.

Lemma trim_blank text : trim text = [] <-> isBlank text = true.
Proof.
  rewrite <- trimStart_blank. unfold trim. split.
  - intros H. destruct (trimStart text) as [|c rest] eqn:E; [done|].
    pose proof (trimStart_clean text) as Hc. rewrite E in Hc.
    pose proof (trimEnd_clean_start (c :: rest) Hc) as Hc'.
    assert (c ∈ trimEnd (c :: rest)) as Hin; [|by rewrite H in Hin; inversion Hin].
    clear H Hc' E. revert c Hc.
    induction rest as [|x rest IH] using rev_ind; intros c Hc.
    + change [c] with ([] ++ [c]). rewrite trimEnd_snoc. simpl in Hc.
      rewrite Hc. simpl. left.
    + rewrite app_comm_cons, trimEnd_snoc.
      destruct (isSpace x); [by apply IH | left].
  - by intros ->.
Qed.

(** ** Settings tab *)

Lemma trimmed_fixed text : trim text = text <-> trimmed text.
Proof.
  split; [|apply trim_id]. intros <-. apply trim_trimmed.
Qed.

Lemma filter_trim_fixed (langs : list jsstring) :
  Forall (fun lang => lang <> [] /\ trim lang = lang) langs ->
  filter (fun lang => lang <> []) (trim <$> langs) = langs.
Proof.
  induction 1 as [|lang langs [Hne Htrim] _ IH]; [done|].
  rewrite fmap_cons, Htrim, filter_cons_True by done. by rewrite IH.
Qed.

Lemma parsed_language (value lang : jsstring) :
  lang ∈ parsePreferredLanguages value ->
  lang <> [] /\ trim lang = lang /\ COMMA ∉ lang.
Proof.
  unfold parsePreferredLanguages. intros Hin.
  apply list_elem_of_filter in Hin as [Hne Hin].
  apply list_elem_of_fmap in Hin as (piece & -> & Hpiece).
  split; [done|]. split.
  - apply trimmed_fixed, trim_trimmed.
  - intros Hcomma%trim_elem. revert Hcomma.
    pose proof (split_on_pieces COMMA value) as Hall.
    rewrite Forall_forall in Hall. by apply Hall.
Qed.

(** X1: whatever is typed, the parsed preferred languages are non-empty,
    have no white space at either end and hold no comma. *)
Theorem parsePreferredLanguages_entries (value : jsstring) :
  Forall (fun lang => lang <> [] /\ trim lang = lang /\ COMMA ∉ lang)
    (parsePreferredLanguages value).
Proof.
  apply Forall_forall. intros lang Hin. by apply (parsed_language value).
Qed.

(** X2: the text the tab shows for a list of languages parses back to that
    list when its entries are non-empty, trimmed and without comma; so
    showing and parsing again what was parsed changes nothing. *)
Theorem showPreferredLanguages_parses_back (languages : list jsstring)
    (value : jsstring) :
  (Forall (fun lang => lang <> [] /\ trim lang = lang /\ COMMA ∉ lang) languages ->
   parsePreferredLanguages (showPreferredLanguages languages) = languages)
  /\ parsePreferredLanguages (showPreferredLanguages (parsePreferredLanguages value))
     = parsePreferredLanguages value.
Proof.
  assert (forall langs,
    Forall (fun lang => lang <> [] /\ trim lang = lang /\ COMMA ∉ lang) langs ->
    parsePreferredLanguages (showPreferredLanguages langs) = langs) as Hback.
  { intros langs Hall. destruct langs as [|lang langs]; [by vm_compute|].
    unfold parsePreferredLanguages, showPreferredLanguages.
    rewrite split_on_join; [|done|].
    - apply filter_trim_fixed. eapply Forall_impl; [exact Hall|].
      by intros l (Hne & Htrim & _).
    - eapply Forall_impl; [exact Hall|]. by intros l (_ & _ & Hcomma). }
  split; [apply Hback|]. apply Hback, Forall_forall.
  intros lang Hin. by apply (parsed_language value).
Qed.

(** X3: the target language that is stored is never empty and has no white
    space at either end: it is [en] when the typed text is blank and the
    trimmed text otherwise. *)
Theorem parseTargetLanguage_never_empty (value : jsstring) :
  parseTargetLanguage value <> []
  /\ trim (parseTargetLanguage value) = parseTargetLanguage value
  /\ (isBlank value = true -> parseTargetLanguage value = js "en")
  /\ (isBlank value = false -> parseTargetLanguage value = trim value).
Proof.
  unfold parseTargetLanguage.
  pose proof (trim_blank value) as Hblank.
  pose proof (trim_trimmed value) as Htrim.
  destruct (trim value) as [|c rest] eqn:E.
  - split; [done|]. split; [by vm_compute|]. split; [done|].
    intros Hb. destruct Hblank as [Hblank _]. by rewrite (Hblank eq_refl) in Hb.
  - split; [discriminate|]. split; [by apply trimmed_fixed|]. split; [|done].
    intros Hb. destruct Hblank as [_ Hblank]. by specialize (Hblank Hb).
Qed.

Lemma loadSettings_complete (p : Plugin) : complete (settings (loadSettings p)).
Proof.
  intros k [v Hk]%elem_of_dom. apply elem_of_dom.
  rewrite loadSettings_lookup, Hk.
  destruct (data p) as [persisted|]; [|eauto].
  destruct (persisted !! k); eauto.
Qed.

Lemma assignSetting_reload field v (p : Plugin) :
  complete (settings p) ->
  data (assignSetting field v p) = Some (<[field := v]> (settings p))
  /\ settings (loadSettings (assignSetting field v p)) = <[field := v]> (settings p)
  /\ complete (<[field := v]> (settings p)).
Proof.
  intros Hc.
  assert (complete (<[field := v]> (settings p))) as Hc'.
  { unfold complete in *. rewrite dom_insert_L.
    intros k Hk. apply elem_of_union_r. by apply Hc. }
  split; [done|]. split; [|done].
  apply map_eq. intros k. rewrite loadSettings_lookup. simpl.
  destruct (<[field := v]> (settings p) !! k) as [x|] eqn:Hk; [done|].
  apply not_elem_of_dom in Hk. apply not_elem_of_dom.
  intros Hin. apply Hk. by apply Hc'.
Qed.

(** X4: a change in the settings tab is persisted at once and is what a
    later [loadSettings] gives back: the settings as they were with the one
    field replaced by the parsed value, no default creeping back in; they
    still have every field of the defaults. *)
Theorem settings_tab_change_survives_reload (p : Plugin) (value : jsstring) :
  complete (settings p) ->
  (settings (loadSettings (onBlockTypeChange value p))
   = <["blockType" := JStr value]> (settings p)
   /\ complete (settings (onBlockTypeChange value p)))
  /\ (settings (loadSettings (onPreferredLanguagesChange value p))
      = <["preferredLanguages" := JArr (parsePreferredLanguages value)]> (settings p)
      /\ complete (settings (onPreferredLanguagesChange value p)))
  /\ (settings (loadSettings (onTargetLanguageChange value p))
      = <["targetLanguage" := JStr (parseTargetLanguage value)]> (settings p)
      /\ complete (settings (onTargetLanguageChange value p))).
Proof.
  intros Hc. split; [|split].
  - destruct (assignSetting_reload "blockType" (JStr value) p Hc) as (_ & H1 & H2).
    split; [exact H1 | exact H2].
  - destruct (assignSetting_reload "preferredLanguages"
                (JArr (parsePreferredLanguages value)) p Hc) as (_ & H1 & H2).
    split; [exact H1 | exact H2].
  - destruct (assignSetting_reload "targetLanguage"
                (JStr (parseTargetLanguage value)) p Hc) as (_ & H1 & H2).
    split; [exact H1 | exact H2].
Qed.

(** ** The text of the document *)

Lemma tail_app_feed (X Y Z : jsstring) :
  tail (X ++ NL :: Y) ++ Z = tail (X ++ NL :: Y ++ Z).
Proof. destruct X; simpl; [done|]. by rewrite <- app_assoc. Qed.

Lemma take_tail_feed (X Y : jsstring) c :
  take (length X + c) (tail (X ++ NL :: Y)) = tail (X ++ NL :: take c Y).
Proof.
  destruct X as [|x X]; [done|]. simpl.
  replace (S (length X + c)) with (length X + S c) by lia.
  by rewrite take_app_add.
Qed.

Lemma drop_tail_feed (X Y : jsstring) c :
  drop (length X + c) (tail (X ++ NL :: Y)) = drop c Y.
Proof.
  destruct X as [|x X]; [done|]. simpl.
  replace (S (length X + c)) with (length X + S c) by lia.
  by rewrite drop_app_add.
Qed.

(** The text of the document around a position in it. *)
Lemma document_at d p text :
  d !! line p = Some text ->
  feed d = feed (take (line p) d) ++ NL :: text ++ feed (drop (S (line p)) d)
  /\ posToOffset d p = length (feed (take (line p) d)) + ch p.
Proof.
  intros Hp. split.
  - rewrite <- (take_drop_middle d (line p) text Hp) at 1.
    by rewrite feed_app, feed_cons.
  - unfold posToOffset. by rewrite feed_length.
Qed.

Lemma unbroken_subseteq (a b : jsstring) : a ⊆ b -> unbroken b -> unbroken a.
Proof. intros Hsub [Hnl Hcr]. split; intros Hin; [apply Hnl | apply Hcr]; by apply Hsub. Qed.

Lemma join_unbroken_cr_free (d : list jsstring) :
  Forall unbroken d -> CR ∉ join [NL] d.
Proof.
  intros Hall Hin. rewrite join_feed in Hin.
  assert (CR ∈ feed d) as Hfeed.
  { destruct (feed d); [by inversion Hin | by right]. }
  apply elem_of_feed in Hfeed as (piece & Hpiece & Hcr).
  rewrite Forall_forall in Hall. destruct (Hall piece Hpiece) as [_ Hfree].
  apply elem_of_cons in Hcr as [Hcr|Hcr]; [done | by apply Hfree].
Qed.

(** [replaceRange] on the text of the document: what stands before [from],
    the new text with its line breaks written as line feeds, and what
    stands after [to]; the lines of the document still hold no line
    break. *)
Lemma replaced_text text from to d :
  Forall unbroken d -> valid d from -> valid d to ->
  exists d',
    replaced text from to d = Some d'
    /\ Forall unbroken d'
    /\ join [NL] d'
       = take (posToOffset d from) (join [NL] d) ++ normalize text
         ++ drop (posToOffset d to) (join [NL] d).
Proof.
  intros Hall (first & Hfirst & Hcf) (last & Hlast & Hct).
  unfold replaced. rewrite Hfirst, Hlast. eexists. split; [reflexivity|].
  assert (unbroken (take (ch from) first)) as [_ HA].
  { apply (unbroken_subseteq _ first); [apply subseteq_take|].
    rewrite Forall_forall in Hall. apply Hall. by eapply list_elem_of_lookup_2. }
  assert (unbroken (drop (ch to) last)) as HB.
  { apply (unbroken_subseteq _ last); [apply subseteq_drop|].
    rewrite Forall_forall in Hall. apply Hall. by eapply list_elem_of_lookup_2. }
  split.
  { apply Forall_app. split; [by apply Forall_take|].
    apply Forall_app. split; [apply split_lines_pieces | by apply Forall_drop]. }
  destruct (document_at d from first Hfirst) as [Hdf Hof].
  destruct (document_at d to last Hlast) as [Hdt Hot].
  rewrite !join_feed, !feed_app. unfold split_lines. rewrite feed_split_nl.
  rewrite normalize_app_cr_free by done. unfold normalize.
  rewrite normalize_from_app_unbroken by done.
  rewrite Hof, Hot. rewrite Hdf at 1. rewrite Hdt.
  rewrite take_tail_feed, drop_tail_feed.
  rewrite take_app_le, drop_app_le by done.
  rewrite tail_app_feed. do 2 f_equal. simpl. by rewrite <- !app_assoc.
Qed.

Lemma posToOffset_le d p q :
  valid d p -> pos_le p q = true -> posToOffset d p <= posToOffset d q.
Proof.
  intros (text & Hp & Hc) Hle. unfold pos_le in Hle. unfold posToOffset.
  destruct (line p <? line q) eqn:Hlt.
  - apply Nat.ltb_lt in Hlt.
    replace (line q) with (S (line p) + (line q - S (line p))) by lia.
    rewrite <- take_take_drop, (take_S_r d (line p) text Hp).
    rewrite !fmap_app, !sum_list_with_app. simpl. lia.
  - simpl in Hle. apply andb_true_iff in Hle as [Heq Hch].
    apply Nat.eqb_eq in Heq. apply Nat.leb_le in Hch. rewrite Heq. lia.
Qed.

Lemma pos_le_total p q : pos_le p q = false -> pos_le q p = true.
Proof.
  unfold pos_le. intros H.
  apply orb_false_iff in H as [Hlt H]. apply Nat.ltb_ge in Hlt.
  destruct (line q <? line p) eqn:Hlt'; [done|]. apply Nat.ltb_ge in Hlt'.
  simpl. assert (line p = line q) as Heq by lia.
  rewrite Heq, Nat.eqb_refl in H. simpl in H. apply Nat.leb_gt in H.
  rewrite Heq, Nat.eqb_refl. simpl. apply Nat.leb_le. lia.
Qed.

(** The selection is the text between its two ends. *)
Lemma selection_between (e : Editor) :
  valid (doc e) (anchor e) -> valid (doc e) (head e) ->
  valid (doc e) (getCursor CFrom e) /\ valid (doc e) (getCursor CTo e)
  /\ join [NL] (doc e)
     = take (posToOffset (doc e) (getCursor CFrom e)) (join [NL] (doc e))
       ++ getSelection e
       ++ drop (posToOffset (doc e) (getCursor CTo e)) (join [NL] (doc e)).
Proof.
  intros Ha Hh.
  assert (valid (doc e) (getCursor CFrom e) /\ valid (doc e) (getCursor CTo e)
          /\ pos_le (getCursor CFrom e) (getCursor CTo e) = true) as (Hf & Ht & Hle).
  { unfold getCursor. destruct (pos_le (anchor e) (head e)) eqn:E; [done|].
    split; [done|]. split; [done|]. by apply pos_le_total. }
  split; [done|]. split; [done|].
  pose proof (posToOffset_le (doc e) _ _ Hf Hle) as Hab.
  unfold getSelection. cbv zeta.
  set (a := posToOffset (doc e) (getCursor CFrom e)) in *.
  set (b := posToOffset (doc e) (getCursor CTo e)) in *.
  set (T := join [NL] (doc e)).
  rewrite <- (take_drop a T) at 1. f_equal.
  rewrite <- (take_drop (b - a) (drop a T)) at 1. f_equal.
  rewrite drop_drop. f_equal. lia.
Qed.

Section CommandProperties.

Variable backend : nat -> jsstring -> option JsValue -> JsValue -> option jsstring.

(** ** The adapter under loaded settings *)

(** X5: with the settings [loadSettings] builds, whatever was persisted,
    [translateText] asks the backend exactly once for the very text it was
    given: one attempt for each call, none skipped and none repeated. *)
Theorem translateText_single_attempt (p : Plugin) (text : jsstring) (w : World) :
  translations
    (log (snd (translateText backend (settings (loadSettings p)) text w)))
  = translations (log w) ++ [text].
Proof.
  rewrite translateText_run. simpl. rewrite translations_app.
  rewrite translateEvents_translations; [done|].
  pose proof (loadSettings_complete p) as Hc.
  apply elem_of_dom, Hc, elem_of_dom. by eexists.
Qed.

(** X6: after the preferred languages are typed in the settings tab, the
    backend is asked to translate from the first language of the parsed
    list, or from [auto] when the list is empty, into the target language
    the settings had. *)
Theorem translateText_source_language (p : Plugin) (value text : jsstring)
    (w : World) :
  exists rest,
    log (snd (translateText backend
                (settings (onPreferredLanguagesChange value p)) text w))
    = log w
      ++ ETranslate text (settings p !! "targetLanguage")
           (JStr (default (js "auto") (parsePreferredLanguages value !! 0)))
         :: rest.
Proof.
  rewrite translateText_run. simpl. unfold translateEvents.
  rewrite lookup_insert_eq, lookup_insert_ne by done.
  assert (sourceHint (JArr (parsePreferredLanguages value))
          = JStr (default (js "auto") (parsePreferredLanguages value !! 0)))
    as -> by (by destruct (parsePreferredLanguages value)).
  destruct (backend _ _ _ _); eauto.
Qed.

(** ** The clipboard command with a selection *)

(** X7: with a selection the clipboard command shows in a notice what
    [translateText] returned for the selection and leaves the document as
    it is.  When the clipboard may be written it then holds that same text
    and the command returns; when the write is rejected the command fails
    with the rejection, after the notice, and the clipboard is as
    before. *)
Theorem translateToNotice_with_selection (s : JsObject) (w : World) :
  getSelection (editor w) <> [] ->
  exists translated w1,
    translateText backend s (getSelection (editor w)) w = (Ok translated, w1)
    /\ (clipboardError w = None ->
        exists w',
          translateToNotice backend s w = (Ok tt, w')
          /\ editor w' = editor w
          /\ clipboard w' = translated
          /\ log w' = log w1 ++ [ENotice translated; EClipboard translated])
    /\ (forall e, clipboardError w = Some e ->
        exists w',
          translateToNotice backend s w = (Throw e, w')
          /\ editor w' = editor w
          /\ clipboard w' = clipboard w
          /\ log w' = log w1 ++ [ENotice translated]).
Proof.
  intros Hsel. unfold translateToNotice.
  destruct (getSelection (editor w)) as [|c sel] eqn:E; [done|].
  unfold bind. rewrite translateText_run.
  do 2 eexists. split; [reflexivity|].
  unfold effect, writeText. simpl clipboardError.
  split; [intros -> | intros e ->]; eexists; (split; [reflexivity|]);
    (split; [reflexivity|]); (split; [reflexivity|]);
    simpl; by rewrite <- ?app_assoc.
Qed.

(** ** The insert command *)

(** X8: with a selection whose ends lie in a document of lines without
    line break, the insert command never throws; the text of the document
    afterwards is the text before the selection, then the selection as it
    was, a line feed and the formatted translation, with every line break
    in them written as a line feed, then the text after the selection.
    When the translation holds no carriage return nothing is rewritten. *)
Theorem translateToBlock_inserts_after_selection (s : JsObject) (w : World) :
  Forall unbroken (doc (editor w)) ->
  valid (doc (editor w)) (anchor (editor w)) ->
  valid (doc (editor w)) (head (editor w)) ->
  getSelection (editor w) <> [] ->
  let selection := getSelection (editor w) in
  let T := join [NL] (doc (editor w)) in
  let before := take (posToOffset (doc (editor w)) (getCursor CFrom (editor w))) T in
  let after := drop (posToOffset (doc (editor w)) (getCursor CTo (editor w))) T in
  exists translated w1 w',
    translateText backend s selection w = (Ok translated, w1)
    /\ translateToBlock backend s w = (Ok tt, w')
    /\ T = before ++ selection ++ after
    /\ join [NL] (doc (editor w'))
       = before ++ normalize (selection ++ [NL] ++ formatTranslation s translated)
         ++ after
    /\ (CR ∉ translated ->
        join [NL] (doc (editor w'))
        = before ++ selection ++ [NL] ++ formatTranslation s translated ++ after)
    /\ Forall unbroken (doc (editor w'))
    /\ clipboard w' = clipboard w.
Proof.
  intros Hall Ha Hh Hsel. cbv zeta.
  destruct (selection_between (editor w) Ha Hh) as (Hf & Ht & HT).
  pose proof (join_unbroken_cr_free _ Hall) as HcrT.
  unfold translateToBlock.
  destruct (getSelection (editor w)) as [|c sel] eqn:E; [done|].
  unfold bind. rewrite translateText_run.
  set (translated := answer backend s (length (translations (log w))) (c :: sel)).
  destruct (replaced_text ((c :: sel) ++ [NL] ++ formatTranslation s translated)
              _ _ _ Hall Hf Ht) as (d' & Hrep & Hall' & Htext).
  unfold replaceSelection. simpl editor. cbv zeta. rewrite Hrep.
  do 3 eexists. split; [reflexivity|]. split; [reflexivity|].
  split; [exact HT|]. simpl doc. split; [exact Htext|].
  split; [|split; [exact Hall' | reflexivity]].
  intros Hcr. rewrite Htext, normalize_cr_free; [by rewrite <- !app_assoc|].
  apply not_elem_of_app. split.
  - intros Hin. apply HcrT. rewrite HT.
    apply elem_of_app. right. apply elem_of_app. by left.
  - apply not_elem_of_app. split; [|by apply formatTranslation_cr_free].
    apply (bool_decide_unpack _). by vm_compute.
Qed.

End CommandProperties.

(** ** The line count of a block *)

Lemma count_nl_zero text : count_nl text = 0 <-> single_line text.
Proof.
  unfold count_nl, single_line. induction text as [|c rest IH].
  - split; [intros _; apply not_elem_of_nil | done].
  - destruct (decide (c = NL)) as [->|Hc].
    + rewrite filter_cons_True by done. simpl. split; [lia|].
      intros H. exfalso. apply H. left.
    + rewrite filter_cons_False by done. rewrite IH, not_elem_of_cons.
      split; [by intros H; split; [congruence|] | by intros [_ H]].
Qed.

(** X9: for every block type and every text, the formatted block has
    [getLinesAdded] lines and one more for each line feed of the text; so
    [getLinesAdded] is its number of lines exactly when the text has one
    line. *)
Theorem formatTranslation_line_count (s : JsObject) (text : jsstring) :
  length (split_nl (formatTranslation s text)) = getLinesAdded s + count_nl text
  /\ (length (split_nl (formatTranslation s text)) = getLinesAdded s
      <-> single_line text).
Proof.
  pose proof (formatTranslation_length s text) as Hlen.
  rewrite (count_nl_split text) in Hlen.
  split; [lia|]. rewrite <- count_nl_zero. lia.
Qed.

Section LoopProperties.

Variable backend : nat -> jsstring -> option JsValue -> JsValue -> option jsstring.

(** ** The lines after a processed line *)


(** ** Without a selection *)

Lemma getSelection_collapsed (e : Editor) : anchor e = head e -> getSelection e = [].
Proof.
  intros Heq. unfold getSelection, getCursor. rewrite Heq.
  destruct (pos_le (head e) (head e)); by rewrite Nat.sub_diag.
Qed.

(** X11: without a selection the command deals with the line of the cursor
    and no other.  When that line is blank it only reads it; otherwise it
    reads it, and afterwards the document holds in its place that line and
    the lines the editor makes of the formatted translation and its
    closing line feed, whatever the backend answered: the lines of the
    formatted block and an empty line when the translation holds no
    carriage return. *)
Theorem inlineTranslateLine_without_selection (s : JsObject) (w : World)
    (text : jsstring) :
  anchor (editor w) = head (editor w) ->
  doc (editor w) !! line (head (editor w)) = Some text ->
  let i := line (head (editor w)) in
  (isBlank text = true ->
   inlineTranslateLine backend 1 s w = Some (Ok tt, extend [EGetLine i text] w))
  /\ (isBlank text = false -> unbroken text ->
      exists translated w1 w',
        translateText backend s text (emit (EGetLine i text) w) = (Ok translated, w1)
        /\ inlineTranslateLine backend 1 s w = Some (Ok tt, w')
        /\ inspections (log w') = inspections (log w) ++ [(i, text)]
        /\ doc (editor w')
           = take i (doc (editor w))
             ++ [text] ++ split_lines (formatTranslation s translated ++ [NL])
             ++ drop (S i) (doc (editor w))
        /\ (CR ∉ translated ->
            doc (editor w')
            = take i (doc (editor w))
              ++ [text] ++ split_nl (formatTranslation s translated) ++ [[]]
              ++ drop (S i) (doc (editor w)))).
Proof.
  intros Heq Hi i. unfold inlineTranslateLine, lineRange.
  rewrite (getSelection_collapsed _ Heq). simpl getCursor. fold i.
  rewrite forLoop_step by done. split.
  - intros Hb. rewrite (body_blank backend s i i w text Hi Hb).
    by rewrite forLoop_done by lia.
  - intros Hb Ht. rewrite translateText_run.
    assert (length (translations (log (emit (EGetLine i text) w)))
            = length (translations (log w))) as Hn.
    { simpl. rewrite translations_app. simpl. by rewrite app_nil_r. }
    rewrite Hn. rewrite (body_translates backend s i i w text Hi Hb).
    rewrite forLoop_done by lia.
    do 3 eexists. split; [reflexivity|]. split; [reflexivity|].
    split; [|split].
    + rewrite log_extend, log_setDoc, !inspections_app.
      rewrite translateEvents_inspections. simpl. by rewrite ?app_nil_r.
    + by rewrite doc_extend, doc_setDoc, replacement_lines_any.
    + intros Hcr. rewrite doc_extend, doc_setDoc, replacement_lines by done.
      simpl. by rewrite <- app_assoc.
Qed.

(** ** What the loop leaves alone *)

Lemma translateEvents_at_most_one s n text :
  length (translations (translateEvents backend s n text)) <= 1.
Proof.
  unfold translateEvents. destruct (s !! "preferredLanguages"); [|simpl; lia].
  destruct (backend _ _ _ _); simpl; lia.
Qed.

Lemma forLoop_frame s fuel : forall i e w,
  S e - i <= fuel -> e < length (doc (editor w)) ->
  Forall unbroken (doc (editor w)) ->
  exists w',
    forLoop backend fuel s i e w = Some (Ok tt, w')
    /\ take i (doc (editor w')) = take i (doc (editor w))
    /\ drop (S e) (doc (editor w)) `suffix_of` doc (editor w')
    /\ doc (editor w) `sublist_of` doc (editor w')
    /\ Forall unbroken (doc (editor w'))
    /\ clipboard w' = clipboard w
    /\ length (translations (log w')) <= length (translations (log w)) + (S e - i).
Proof.
  induction fuel as [|fuel IH]; intros i e w Hfuel Hdoc Hlines.
  - rewrite forLoop_done by lia. exists w.
    repeat split; [apply suffix_drop | done | done | lia].
  - destruct (decide (i <= e)) as [Hle|Hgt].
    2:{ rewrite forLoop_done by lia. exists w.
        repeat split; [apply suffix_drop | done | done | lia]. }
    rewrite forLoop_step by done.
    destruct (lookup_lt_is_Some_2 (doc (editor w)) i) as [text Hi]; [lia|].
    destruct (isBlank text) eqn:Hb.
    + rewrite (body_blank backend s i e w text Hi Hb).
      destruct (IH (i + 1) e (extend [EGetLine i text] w))
        as (w' & Hrun & Hpre & Hsuf & Hsub & Hall & Hclip & Hcalls);
        [lia | done | done |].
      exists w'. split; [done|]. rewrite doc_extend in *.
      split; [|split; [done|split; [done|split; [done|split; [done|]]]]].
      * rewrite <- (take_take_drop (doc (editor w')) i 1) in Hpre.
        rewrite <- (take_take_drop (doc (editor w)) i 1) in Hpre.
        apply app_inj_1 in Hpre as [Hpre _]; [done|].
        rewrite !length_take.
        apply sublist_length in Hsub. lia.
      * rewrite log_extend, translations_app in Hcalls. simpl in Hcalls.
        rewrite app_nil_r in Hcalls. lia.
    + rewrite (body_translates backend s i e w text Hi Hb).
      set (n := length (translations (log w))).
      set (text' := replacement s text (answer backend s n text)).
      pose proof (replacement_length s text (answer backend s n text)) as Hrep.
      fold text' in Hrep.
      assert (unbroken text) as Htext.
      { rewrite Forall_forall in Hlines. apply Hlines.
        by eapply list_elem_of_lookup_2. }
      assert (exists B, split_lines text' = text :: B) as [B HB].
      { unfold text'. rewrite replacement_lines_any by done. eauto. }
      set (d := doc (editor w)) in *.
      set (d1 := take i d ++ split_lines text' ++ drop (S i) d).
      assert (length (take i d) = i) as Hti by (rewrite length_take; lia).
      match goal with |- context [forLoop backend fuel s ?j ?f ?v] =>
        destruct (IH j f v)
          as (w' & Hrun & Hpre & Hsuf & Hsub & Hall & Hclip & Hcalls) end.
      * lia.
      * rewrite doc_extend, doc_setDoc. unfold d1.
        rewrite !length_app, length_drop. lia.
      * rewrite doc_extend, doc_setDoc. unfold d1.
        apply Forall_app. split; [by apply Forall_take|].
        apply Forall_app. split; [apply split_lines_pieces | by apply Forall_drop].
      * exists w'. split; [done|].
        rewrite doc_extend, doc_setDoc in *. fold d1 in Hpre, Hsuf, Hsub.
        split; [|split; [|split; [|split; [done|split; [done|]]]]].
        -- assert (take i (take (i + (getLinesAdded s + 1) + 1) (doc (editor w')))
                   = take i (take (i + (getLinesAdded s + 1) + 1) d1)) as Hcut
             by (by rewrite Hpre).
           rewrite !take_take in Hcut.
           replace (i `min` (i + (getLinesAdded s + 1) + 1)) with i in Hcut by lia.
           rewrite Hcut. unfold d1. by rewrite take_app_length'.
        -- etrans; [|exact Hsuf].
           assert (drop (S e) d = drop (e + length (split_lines text')) d1) as ->.
           { unfold d1. rewrite app_assoc.
             replace (e + length (split_lines text'))
               with (length (take i d ++ split_lines text') + (e - i))
               by (rewrite length_app; lia).
             rewrite drop_app_add, drop_drop. f_equal. lia. }
           replace (e + length (split_lines text'))
             with (S (e + (getLinesAdded s + 1))
                   + (length (split_lines text') - (getLinesAdded s + 2))) by lia.
           rewrite <- drop_drop. apply suffix_drop.
        -- etrans; [|exact Hsub].
           rewrite <- (take_drop_middle d i text Hi). unfold d1. fold d.
           rewrite HB. apply sublist_app; [done|]. simpl.
           apply sublist_skip. by apply sublist_inserts_l.
        -- rewrite log_extend, log_setDoc, !translations_app in Hcalls.
           pose proof (translateEvents_at_most_one s n text) as Hone.
           rewrite !length_app in Hcalls. simpl in Hcalls. lia.
Qed.

(** X12: whatever the backend answers, one line or many, the per-line
    command run on a selection inside a document whose lines hold no line
    break returns
    without throwing; the lines before the range are as they were, the
    lines after the range still end the document, no line of the document
    is removed or changed (the old document is a subsequence of the new
    one), the clipboard is not written, and the backend is asked at most
    once per line of the range. *)
Theorem inlineTranslateLine_frame (s : JsObject) (startLine endLine : nat)
    (w : World) :
  line (anchor (editor w)) < length (doc (editor w)) ->
  line (head (editor w)) < length (doc (editor w)) ->
  Forall unbroken (doc (editor w)) ->
  lineRange (editor w) = (startLine, endLine) ->
  exists w',
    inlineTranslateLine backend (endLine - startLine + 1) s w = Some (Ok tt, w')
    /\ take startLine (doc (editor w')) = take startLine (doc (editor w))
    /\ drop (S endLine) (doc (editor w)) `suffix_of` doc (editor w')
    /\ doc (editor w) `sublist_of` doc (editor w')
    /\ clipboard w' = clipboard w
    /\ length (translations (log w'))
       <= length (translations (log w)) + (endLine - startLine + 1).
Proof.
  intros Ha Hh Hlines Hrange.
  pose proof (lineRange_inside (editor w) Ha Hh) as Hin.
  rewrite Hrange in Hin. simpl in Hin. destruct Hin as [Hle Hdoc].
  unfold inlineTranslateLine. rewrite Hrange.
  destruct (forLoop_frame s (endLine - startLine + 1) startLine endLine w)
    as (w' & Hrun & Hpre & Hsuf & Hsub & _ & Hclip & Hcalls); [lia | done | done |].
  exists w'. repeat split; try done. lia.
Qed.

(** ** When every call fails *)

Section Failing.

Hypothesis backend_fails : forall n t to from, backend n t to from = None.

Lemma answer_failing s n text : answer backend s n text = text.
Proof.
  unfold answer. destruct (s !! "preferredLanguages"); [|done].
  by rewrite backend_fails.
Qed.

Lemma blocks_failing s n sel : blocks backend s n sel = echoed s <$> sel.
Proof.
  revert n. induction sel as [|text rest IH]; intros n; [done|].
  simpl. rewrite IH. unfold block, echoed. by rewrite answer_failing.
Qed.

Lemma translateEvents_failing s n text :
  is_Some (s !! "preferredLanguages") ->
  notices (translateEvents backend s n text)
  = [js "Error translating text. Please try again later."].
Proof.
  intros [pl Hpl]. unfold translateEvents. by rewrite Hpl, backend_fails.
Qed.

Lemma forLoop_failing_notices s fuel : forall i e w r w',
  is_Some (s !! "preferredLanguages") ->
  forLoop backend fuel s i e w = Some (r, w') ->
  exists k,
    notices (log w')
    = notices (log w)
      ++ replicate k (js "Error translating text. Please try again later.")
    /\ length (translations (log w')) = length (translations (log w)) + k.
Proof.
  induction fuel as [|fuel IH]; intros i e w r w' Hpl Hrun.
  - destruct (decide (i <= e)) as [Hle|Hgt].
    + simpl in Hrun. apply Nat.leb_le in Hle. by rewrite Hle in Hrun.
    + rewrite forLoop_done in Hrun by lia. injection Hrun as _ <-.
      exists 0. simpl. by rewrite app_nil_r, Nat.add_0_r.
  - destruct (decide (i <= e)) as [Hle|Hgt].
    2:{ rewrite forLoop_done in Hrun by lia. injection Hrun as _ <-.
        exists 0. simpl. by rewrite app_nil_r, Nat.add_0_r. }
    rewrite forLoop_step in Hrun by done.
    destruct (doc (editor w) !! i) as [text|] eqn:Hi.
    + destruct (isBlank text) eqn:Hb.
      * rewrite (body_blank backend s i e w text Hi Hb) in Hrun.
        destruct (IH _ _ _ _ _ Hpl Hrun) as (k & Hnot & Hcalls).
        exists k. rewrite log_extend, notices_app, translations_app in *.
        simpl in *. by rewrite app_nil_r in *.
      * rewrite (body_translates backend s i e w text Hi Hb) in Hrun.
        destruct (IH _ _ _ _ _ Hpl Hrun) as (k & Hnot & Hcalls).
        exists (S k).
        rewrite log_extend, log_setDoc, !notices_app, !translations_app in *.
        rewrite translateEvents_failing in Hnot by done.
        rewrite translateEvents_translations in Hcalls by done.
        simpl in *. rewrite Hnot, Hcalls, <- app_assoc, length_app. simpl.
        split; [done | lia].
    + rewrite (body_out_of_range backend s i e w Hi) in Hrun.
      injection Hrun as _ <-. exists 0. simpl. by rewrite app_nil_r, Nat.add_0_r.
Qed.

(** X13: when every call of the backend fails, the command still returns
    without throwing; in the document every non-blank line of the range is
    followed by its own text, formatted, and an empty line, and one failure
    notice has been shown for each of these lines. *)
Theorem inlineTranslateLine_echoes_on_failure (s : JsObject)
    (pre sel post : list jsstring) (endLine : nat) (w : World) :
  is_Some (s !! "preferredLanguages") ->
  Forall unbroken sel ->
  doc (editor w) = pre ++ sel ++ post ->
  lineRange (editor w) = (length pre, endLine) ->
  S endLine = length pre + length sel ->
  exists w',
    inlineTranslateLine backend (length sel) s w = Some (Ok tt, w')
    /\ doc (editor w') = pre ++ concat (echoed s <$> sel) ++ post
    /\ notices (log w')
       = notices (log w)
         ++ replicate (length (filter nonblank sel))
              (js "Error translating text. Please try again later.").
Proof.
  intros Hpl Hsel Hdoc Hrange He.
  destruct (forLoop_selection backend s sel pre post (length pre) endLine
              (length (translations (log w))) w)
    as (evs & Hrun & Htr & _); try done.
  { intros k t to from r Hr. by rewrite backend_fails in Hr. }
  eexists. unfold inlineTranslateLine. rewrite Hrange.
  split; [exact Hrun|]. split.
  - rewrite doc_extend, doc_setDoc. by rewrite blocks_failing.
  - destruct (forLoop_failing_notices s _ _ _ _ _ _ Hpl Hrun) as (k & Hnot & Hcalls).
    rewrite Hnot. do 2 f_equal.
    rewrite log_extend, log_setDoc, translations_app, length_app, Htr in Hcalls.
    lia.
Qed.

End Failing.

End LoopProperties.

(** * Concrete runs of the further properties *)

Lemma showPreferredLanguages_parses_back_witness :
  parsePreferredLanguages (showPreferredLanguages [js "fr"; js "es"])
  = [js "fr"; js "es"].
Proof.
  apply (showPreferredLanguages_parses_back [js "fr"; js "es"] []).
  apply (bool_decide_unpack _). by vm_compute.
Defined.

Lemma parseTargetLanguage_never_empty_witness :
  parseTargetLanguage (js "  ") = js "en"
  /\ parseTargetLanguage (js " fr ") = trim (js " fr ").
Proof.
  split.
  - apply (parseTargetLanguage_never_empty (js "  ")). reflexivity.
  - apply (parseTargetLanguage_never_empty (js " fr ")). reflexivity.
Defined.

Lemma settings_tab_change_survives_reload_witness :
  (settings (loadSettings (onBlockTypeChange (js "callout")
                             {| settings := DEFAULT_SETTINGS; data := None |}))
   = <["blockType" := JStr (js "callout")]> DEFAULT_SETTINGS
   /\ complete (settings (onBlockTypeChange (js "callout")
                            {| settings := DEFAULT_SETTINGS; data := None |})))
  /\ (settings (loadSettings (onPreferredLanguagesChange (js "callout")
                                {| settings := DEFAULT_SETTINGS; data := None |}))
      = <["preferredLanguages" := JArr (parsePreferredLanguages (js "callout"))]>
          DEFAULT_SETTINGS
      /\ complete (settings (onPreferredLanguagesChange (js "callout")
                               {| settings := DEFAULT_SETTINGS; data := None |})))
  /\ (settings (loadSettings (onTargetLanguageChange (js "callout")
                                {| settings := DEFAULT_SETTINGS; data := None |}))
      = <["targetLanguage" := JStr (parseTargetLanguage (js "callout"))]>
          DEFAULT_SETTINGS
      /\ complete (settings (onTargetLanguageChange (js "callout")
                               {| settings := DEFAULT_SETTINGS; data := None |}))).
Proof.
  apply (settings_tab_change_survives_reload
           {| settings := DEFAULT_SETTINGS; data := None |} (js "callout")).
  apply (bool_decide_unpack _). by vm_compute.
Defined.

Lemma translateToNotice_with_selection_witness :
  exists translated w1,
    translateText failing DEFAULT_SETTINGS
      (getSelection (editor selectedDocument)) selectedDocument
    = (Ok translated, w1)
    /\ (clipboardError selectedDocument = None ->
        exists w',
          translateToNotice failing DEFAULT_SETTINGS selectedDocument = (Ok tt, w')
          /\ editor w' = editor selectedDocument
          /\ clipboard w' = translated
          /\ log w' = log w1 ++ [ENotice translated; EClipboard translated])
    /\ (forall e, clipboardError selectedDocument = Some e ->
        exists w',
          translateToNotice failing DEFAULT_SETTINGS selectedDocument
          = (Throw e, w')
          /\ editor w' = editor selectedDocument
          /\ clipboard w' = clipboard selectedDocument
          /\ log w' = log w1 ++ [ENotice translated]).
Proof.
  apply (translateToNotice_with_selection failing DEFAULT_SETTINGS selectedDocument).
  by vm_compute.
Defined.

Lemma translateToBlock_inserts_after_selection_witness :
  exists translated w1 w',
    translateText (answering (js "Bonjour")) scenarioSettings
      (getSelection (editor selectedDocument)) selectedDocument
    = (Ok translated, w1)
    /\ translateToBlock (answering (js "Bonjour")) scenarioSettings selectedDocument
       = (Ok tt, w')
    /\ join [NL] (doc (editor selectedDocument))
       = take (posToOffset (doc (editor selectedDocument))
                 (getCursor CFrom (editor selectedDocument)))
           (join [NL] (doc (editor selectedDocument)))
         ++ getSelection (editor selectedDocument)
         ++ drop (posToOffset (doc (editor selectedDocument))
                    (getCursor CTo (editor selectedDocument)))
              (join [NL] (doc (editor selectedDocument)))
    /\ join [NL] (doc (editor w'))
       = take (posToOffset (doc (editor selectedDocument))
                 (getCursor CFrom (editor selectedDocument)))
           (join [NL] (doc (editor selectedDocument)))
         ++ normalize (getSelection (editor selectedDocument) ++ [NL]
                       ++ formatTranslation scenarioSettings translated)
         ++ drop (posToOffset (doc (editor selectedDocument))
                    (getCursor CTo (editor selectedDocument)))
              (join [NL] (doc (editor selectedDocument)))
    /\ (CR ∉ translated ->
        join [NL] (doc (editor w'))
        = take (posToOffset (doc (editor selectedDocument))
                  (getCursor CFrom (editor selectedDocument)))
            (join [NL] (doc (editor selectedDocument)))
          ++ getSelection (editor selectedDocument) ++ [NL]
          ++ formatTranslation scenarioSettings translated
          ++ drop (posToOffset (doc (editor selectedDocument))
                     (getCursor CTo (editor selectedDocument)))
               (join [NL] (doc (editor selectedDocument))))
    /\ Forall unbroken (doc (editor w'))
    /\ clipboard w' = clipboard selectedDocument.
Proof.
  apply (translateToBlock_inserts_after_selection (answering (js "Bonjour"))
           scenarioSettings selectedDocument).
  - apply (bool_decide_unpack _). by vm_compute.
  - eexists. split; [reflexivity | simpl; lia].
  - eexists. split; [reflexivity | simpl; lia].
  - by vm_compute.
Defined.

Lemma formatTranslation_line_count_witness :
  length (split_nl (formatTranslation DEFAULT_SETTINGS (js "Bonjour")))
  = getLinesAdded DEFAULT_SETTINGS.
Proof.
  apply (formatTranslation_line_count DEFAULT_SETTINGS (js "Bonjour")).
  apply (bool_decide_unpack _). by vm_compute.
Defined.


Lemma inlineTranslateLine_without_selection_witness :
  exists translated w1 w',
    translateText (answering (js "Monde")) scenarioSettings (js "World")
      (emit (EGetLine 2 (js "World")) cursorOnly) = (Ok translated, w1)
    /\ inlineTranslateLine (answering (js "Monde")) 1 scenarioSettings cursorOnly
       = Some (Ok tt, w')
    /\ inspections (log w') = inspections (log cursorOnly) ++ [(2, js "World")]
    /\ doc (editor w')
       = take 2 (doc (editor cursorOnly))
         ++ [js "World"]
         ++ split_lines (formatTranslation scenarioSettings translated ++ [NL])
         ++ drop 3 (doc (editor cursorOnly))
    /\ (CR ∉ translated ->
        doc (editor w')
        = take 2 (doc (editor cursorOnly))
          ++ [js "World"] ++ split_nl (formatTranslation scenarioSettings translated)
          ++ [[]] ++ drop 3 (doc (editor cursorOnly))).
Proof.
  apply (inlineTranslateLine_without_selection (answering (js "Monde"))
           scenarioSettings cursorOnly (js "World")).
  - reflexivity.
  - reflexivity.
  - reflexivity.
  - apply (bool_decide_unpack _). by vm_compute.
Defined.

Lemma inlineTranslateLine_frame_witness :
  exists w',
    inlineTranslateLine (answering (js "Bonjour" ++ [NL] ++ js "le monde"))
      (2 - 0 + 1) scenarioSettings selectedDocument = Some (Ok tt, w')
    /\ take 0 (doc (editor w')) = take 0 (doc (editor selectedDocument))
    /\ drop 3 (doc (editor selectedDocument)) `suffix_of` doc (editor w')
    /\ doc (editor selectedDocument) `sublist_of` doc (editor w')
    /\ clipboard w' = clipboard selectedDocument
    /\ length (translations (log w'))
       <= length (translations (log selectedDocument)) + (2 - 0 + 1).
Proof.
  apply (inlineTranslateLine_frame
           (answering (js "Bonjour" ++ [NL] ++ js "le monde"))
           scenarioSettings 0 2 selectedDocument).
  - simpl. lia.
  - simpl. lia.
  - apply (bool_decide_unpack _). by vm_compute.
  - by vm_compute.
Defined.

Lemma inlineTranslateLine_echoes_on_failure_witness :
  exists w',
    inlineTranslateLine failing 3 scenarioSettings selectedDocument
    = Some (Ok tt, w')
    /\ doc (editor w')
       = [] ++ concat (echoed scenarioSettings
                         <$> [js "Hello"; js "  "; js "World"]) ++ []
    /\ notices (log w')
       = notices (log selectedDocument)
         ++ replicate (length (filter nonblank [js "Hello"; js "  "; js "World"]))
              (js "Error translating text. Please try again later.").
Proof.
  apply (inlineTranslateLine_echoes_on_failure failing (fun _ _ _ _ => eq_refl)
           scenarioSettings [] [js "Hello"; js "  "; js "World"] [] 2
           selectedDocument).
  - by eexists.
  - apply (bool_decide_unpack _). by vm_compute.
  - reflexivity.
  - by vm_compute.
  - reflexivity.
Defined.
